(** * TarkovTracker: the team coordinator of [functions/src/index.ts]

    A shallow embedding of the four callable team operations
    ([_createTeamLogic], [_joinTeamLogic], [_leaveTeamLogic],
    [_kickTeamMemberLogic]) and of [generateSecurePassword], over an explicit
    model of the two Firestore collections they touch ("system" holds one
    membership document per user, "team" one roster document per team).

    A Firestore transaction is modelled as a small reader/writer/error monad:
    reads are answered from the snapshot the transaction started on, every
    [transaction.set] / [transaction.delete] is appended to a write buffer,
    and [runTransaction] applies the buffer only when the callback returns
    without throwing.  Retries on write conflicts are not modelled: the
    development describes one call running alone against the store.
    A document is keyed by its id as written; the id a caller passes to
    [joinTeam] is first checked the way [CollectionReference.doc] checks it.
    Numbers are rationals.  What the clock, the commit time and the two uid
    generators do is an input of each call ([Env]). *)

From Stdlib Require Import ZArith QArith String Ascii List Lia.
From stdpp Require Import gmap strings list fin_maps.

Local Open Scope string_scope.
Local Open Scope Z_scope.

(** ** JavaScript values as the code sees them *)

(** Truthiness of a string: only the empty string is falsy. *)
Definition truthy (s : string) : bool :=
  if decide (s = "") then false else true.

(** [x || y] on an optional string: [x] when it is present and non-empty. *)
Definition orElse (x : option string) (y : string) : string :=
  match x with
  | Some s => if truthy s then s else y
  | None => y
  end.

(** A JavaScript number is modelled as a rational: every finite double is
    one, and a JSON payload carries neither [NaN] nor an infinity.  Numbers
    are compared as rationals ([==], [<], [<=] of [Q]); a whole number is
    one that equals an integer. *)
Definition whole (n : Q) : Prop := ∃ z : Z, (n == inject_Z z)%Q.

(** [x || y] on an optional number: [x] when it is present and not zero. *)
Definition orElseNumber (x : option Q) (y : Q) : Q :=
  match x with
  | Some n => if Qeq_bool n 0 then y else n
  | None => y
  end.

(** ** Timestamps

    A Firestore [Timestamp] is a count of nanoseconds since the epoch
    (the library's pair seconds/nanoseconds, flattened).  [Timestamp.now()]
    has millisecond resolution; a server timestamp may be finer. *)
Module Timestamp.
Definition MS_TO_NANOS : Z := 1000000.
Definition fromMillis (milliseconds : Z) : Z := milliseconds * MS_TO_NANOS.
Definition toMillis (ts : Z) : Z := ts / MS_TO_NANOS.
(** [Timestamp.now()], given the reading [Date.now()] of the local clock. *)
Definition now (dateNow : Z) : Z := fromMillis dateNow.
(** [a > b] on timestamps compares them chronologically. *)
Definition gt (a b : Z) : bool := b <? a.
End Timestamp.

(** ** Errors *)

Inductive FunctionsErrorCode :=
| unauthenticated
| invalid_argument
| failed_precondition
| not_found
| permission_denied
| resource_exhausted
| internal.

Record HttpsError := mkHttpsError {
  code : FunctionsErrorCode;
  message : string;
  details : option string
}.

(** What a [throw] can carry: an [HttpsError] or any other [Error]. *)
Inductive Thrown :=
| ThrownHttps (e : HttpsError)
| ThrownError (msg : string).

Definition handleTeamError (operation : string) (error : Thrown) : HttpsError :=
  match error with
  | ThrownHttps e => e
  | ThrownError msg =>
      mkHttpsError internal (String.append "Error during " operation) (Some msg)
  end.

(** ** Documents and the store *)

(** The [team] field of a membership document: [team?: string | null]. *)
Inductive TeamField :=
| TeamUndefined
| TeamNull
| TeamStr (id : string).

Record SystemDocData := mkSystemDoc {
  team : TeamField;
  teamMax : option Q;
  lastLeftTeam : option Z
}.

Record TeamDocData := mkTeamDoc {
  owner : option string;
  password : option string;
  maximumMembers : option Q;
  members : option (list string);
  createdAt : option Z
}.

Record Store := mkStore {
  systemCol : gmap string SystemDocData;
  teamCol : gmap string TeamDocData
}.

Definition emptyStore : Store := mkStore ∅ ∅.

(** [systemData?.team] read for its truth value: the id the user is
    currently on, if any. *)
Definition teamOf (systemData : option SystemDocData) : option string :=
  match systemData with
  | Some d =>
      match team d with
      | TeamStr id => if truthy id then Some id else None
      | _ => None
      end
  | None => None
  end.

(** [teamData?.members?.length ?? 0] *)
Definition membersLength (teamData : option TeamDocData) : Z :=
  match teamData ≫= members with
  | Some ms => Z.of_nat (length ms)
  | None => 0
  end.

(** [teamData?.maximumMembers ?? 10] *)
Definition capacity (teamData : option TeamDocData) : Q :=
  default 10%Q (teamData ≫= maximumMembers).

(** ** Document paths

    [db.collection('team').doc(id)] does not take every string.  The
    Firestore library rejects an empty [id] and one that contains ["//"],
    splits [id] at ['/'], drops the empty segments, appends the others to
    the path of the collection, and throws an [Error] unless the result names
    a document: the segments of [id] must be odd in number.  An id without
    ['/'] is one segment.

    The store in turn refuses a few ids that pass this test (["."], [".."],
    ids of the form [__.*__], ids longer than 1500 bytes).  They are not
    told apart here: what is proved below about teams found and not found is
    stated for ids of letters and digits, which is what the ids drawn by
    [createTeam] are. *)

Definition isSlash (c : ascii) : bool := Ascii.eqb c "/"%char.

(** [path.indexOf('//') >= 0] *)
Fixpoint hasDoubleSlash (path : string) : bool :=
  match path with
  | String a rest =>
      match rest with
      | String b _ => (isSlash a && isSlash b) || hasDoubleSlash rest
      | EmptyString => false
      end
  | EmptyString => false
  end.

(** The number of non-empty segments of [path.split('/')]; [inSegment]
    tells whether the character before belongs to a segment. *)
Fixpoint countSegments (inSegment : bool) (path : string) : nat :=
  match path with
  | EmptyString => O
  | String c rest =>
      if isSlash c then countSegments false rest
      else ((if inSegment then 0 else 1) + countSegments true rest)%nat
  end.

(** Whether [collection.doc(id)] returns a reference rather than throwing. *)
Definition validDocumentPath (id : string) : bool :=
  truthy id && negb (hasDoubleSlash id) && Nat.odd (countSegments false id).




(** ** Buffered writes *)

Inductive FieldTransform :=
| arrayUnion (uid : string)
| arrayRemove (uid : string).

Inductive Write :=
(** [set(system/uid, {team: newTeam [, lastLeftTeam: serverTimestamp()]}, {merge: true})] *)
| SetSystemMerge (uid : string) (newTeam : TeamField) (stampLastLeft : bool)
(** [set(team/id, {owner, password, maximumMembers, members, createdAt: serverTimestamp()})] *)
| SetTeam (id : string) (ownerUid pw : string) (maxMembers : Q) (roster : list string)
(** [set(team/id, {members: transform}, {merge: true})] *)
| SetTeamMembersMerge (id : string) (tr : FieldTransform)
(** [delete(team/id)] *)
| DeleteTeam (id : string).

Definition applyTransform (tr : FieldTransform) (old : option (list string)) : list string :=
  let l := default [] old in
  match tr with
  | arrayUnion uid => if decide (uid ∈ l) then l else (l ++ [uid])%list
  | arrayRemove uid => filter (λ m, m ≠ uid) l
  end.

Definition mergeSystem (old : option SystemDocData) (newTeam : TeamField)
    (stamp : option Z) : SystemDocData :=
  {| team := newTeam;
     teamMax := old ≫= teamMax;
     lastLeftTeam := match stamp with
                     | Some ts => Some ts
                     | None => old ≫= lastLeftTeam
                     end |}.

Definition mergeTeamMembers (old : option TeamDocData) (tr : FieldTransform) : TeamDocData :=
  {| owner := old ≫= owner;
     password := old ≫= password;
     maximumMembers := old ≫= maximumMembers;
     members := Some (applyTransform tr (old ≫= members));
     createdAt := old ≫= createdAt |}.

(** One buffered write applied at commit time [serverTime]. *)
Definition applyWrite (serverTime : Z) (s : Store) (w : Write) : Store :=
  match w with
  | SetSystemMerge uid newTeam stampLastLeft =>
      mkStore
        (<[uid := mergeSystem (systemCol s !! uid) newTeam
                    (if stampLastLeft then Some serverTime else None)]> (systemCol s))
        (teamCol s)
  | SetTeam id ownerUid pw maxMembers roster =>
      mkStore (systemCol s)
        (<[id := mkTeamDoc (Some ownerUid) (Some pw) (Some maxMembers) (Some roster)
                   (Some serverTime)]> (teamCol s))
  | SetTeamMembersMerge id tr =>
      mkStore (systemCol s)
        (<[id := mergeTeamMembers (teamCol s !! id) tr]> (teamCol s))
  | DeleteTeam id =>
      mkStore (systemCol s) (delete id (teamCol s))
  end.

Definition commit (serverTime : Z) (ws : list Write) (s : Store) : Store :=
  foldl (applyWrite serverTime) s ws.

(** ** The transaction monad *)

(** A transaction body reads the snapshot and extends the write buffer; it
    ends with a value and the buffer, or with what was thrown and the buffer
    as it stood at the [throw]. *)
Definition Tx (A : Type) : Type :=
  Store → list Write → (Thrown * list Write) + (A * list Write).

Definition txRet {A} (a : A) : Tx A := λ _ ws, inr (a, ws).

Definition txBind {A B} (m : Tx A) (k : A → Tx B) : Tx B :=
  λ snap ws,
    match m snap ws with
    | inl e => inl e
    | inr (a, ws') => k a snap ws'
    end.

Definition txThrow {A} (e : Thrown) : Tx A := λ _ ws, inl (e, ws).

Definition throwHttps {A} (c : FunctionsErrorCode) (msg : string) : Tx A :=
  txThrow (ThrownHttps (mkHttpsError c msg None)).

(** [(await transaction.get(db.collection('system').doc(uid)))?.data()] *)
Definition getSystem (uid : string) : Tx (option SystemDocData) :=
  λ snap ws, inr (systemCol snap !! uid, ws).

(** [(await transaction.get(db.collection('team').doc(id)))?.data()] *)
Definition getTeam (id : string) : Tx (option TeamDocData) :=
  λ snap ws, inr (teamCol snap !! id, ws).

Definition txWrite (w : Write) : Tx unit :=
  λ _ ws, inr (tt, (ws ++ [w])%list).

(** [db.collection('team').doc(id)] for an [id] the caller supplied: the
    key of the document, or the [Error] the library throws for an [id] that
    is no document path (its text is the library's; the model keeps a
    summary).  A path with a leading or trailing ['/'] names the same
    document as the path without it; the model keys the document by [id] as
    written, which is exact for an [id] that has neither. *)
Definition teamDoc (id : string) : Tx string :=
  if validDocumentPath id then txRet id
  else
    txThrow (ThrownError "Value for argument documentPath is not a valid document path.").

Notation "'do' x <- m ; k" := (txBind m (λ x, k))
  (at level 10, x name, m at level 100, k at level 200, only parsing).
Notation "'exec' m ; k" := (txBind m (λ _, k))
  (at level 10, m at level 100, k at level 200, only parsing).

(** [xs.forEach(f)] inside a transaction. *)
Fixpoint txForEach {A} (xs : list A) (f : A → Tx unit) : Tx unit :=
  match xs with
  | [] => txRet tt
  | x :: xs' => exec f x; txForEach xs' f
  end.

(** [db.runTransaction]: all buffered writes or none. *)
Definition runTransaction {A} (serverTime : Z) (s : Store) (body : Tx A)
    : (Thrown + A) * Store :=
  match body s [] with
  | inl (e, _) => (inl e, s)
  | inr (a, ws) => (inr a, commit serverTime ws s)
  end.

(** ** Requests and the environment of a call *)

Record CallableRequest (D : Type) := mkRequest {
  auth : option string;
  data : D
}.
Arguments mkRequest {D} _ _.
Arguments auth {D} _.
Arguments data {D} _.

Module CreateTeamData.
Record t := mk { password : option string; maximumMembers : option Q }.
End CreateTeamData.

Module JoinTeamData.
Record t := mk { id : option string; password : option string }.
End JoinTeamData.

Module KickTeamMemberData.
Record t := mk { kicked : option string }.
End KickTeamMemberData.

(** What an awaited call into a generator did. *)
Inductive Generated (A : Type) :=
| generatorThrows (msg : string)
| generatorReturns (a : A).
Arguments generatorThrows {A} _.
Arguments generatorReturns {A} _.

(** Everything a call reads besides the store: the local clock
    ([Date.now()], milliseconds), the time the store stamps on the commit,
    what [new UIDGenerator(32).generate()] does for the team id, and what
    [new UIDGenerator(48, BASE62).generate()] does for the password
    ([None] is a missing result). *)
Record Env := mkEnv {
  dateNow : Z;
  serverTime : Z;
  teamIdGen : Generated string;
  passGen : Generated (option string)
}.

(** The least [n] from [n0] on with [base ^ n >= 2 ^ bitSize], looking at
    [fuel] candidates. *)
Fixpoint leastLengthFrom (fuel n0 : nat) (bitSize base : Z) : nat :=
  match fuel with
  | O => n0
  | S fuel' =>
      if 2 ^ bitSize <=? base ^ Z.of_nat n0 then n0
      else leastLengthFrom fuel' (S n0) bitSize base
  end.

(** The length of the strings a [UIDGenerator(bitSize, baseEncoding)]
    returns, [Math.ceil(bitSize / Math.log2(base))] with [base] the size of
    the alphabet: the least length at which there are [2 ^ bitSize] strings. *)
Definition uidLength (bitSize base : Z) : nat :=
  leastLengthFrom (Z.to_nat bitSize) O bitSize base.

(** [new UIDGenerator(48, UIDGenerator.BASE62)]: nine characters. *)
Definition passwordLength : nat := uidLength 48 62.

(** What the library lets [generate()] do: fail with the error of the
    random source, or return a string of [passwordLength] characters. *)
Definition asLibraryGenerates (g : Generated (option string)) : Prop :=
  match g with
  | generatorThrows _ => True
  | generatorReturns (Some generated) => String.length generated = passwordLength
  | generatorReturns None => False
  end.

Definition await {A} (g : Generated A) : Tx A :=
  match g with
  | generatorThrows msg => txThrow (ThrownError msg)
  | generatorReturns a => txRet a
  end.

(** The success objects of the four operations. *)
Inductive Success :=
| Created (teamId : string) (pw : string)
| Joined (joined : bool)
| Left (left : bool)
| Kicked (kicked : bool).

Definition Outcome : Type := (HttpsError + Success) * Store.

Definition validateAuth {D} (request : CallableRequest D) : HttpsError + string :=
  match auth request with
  | None => inl (mkHttpsError unauthenticated "Authentication required." None)
  | Some uid => inr uid
  end.

(** ** The operations *)

(** The whole body sits in a [try]/[catch], so the function maps whatever
    the generator did to a string.  [generated.length] is counted in
    characters of the generator's ASCII alphabet. *)
Definition generateSecurePassword (g : Generated (option string)) : string :=
  match g with
  | generatorReturns (Some generated) =>
      if truthy generated && (4 <=? String.length generated)%nat
      then generated
      else "DEBUG_PASS_123"
  | generatorReturns None => "DEBUG_PASS_123"
  | generatorThrows _ => "ERROR_PASS_456"
  end.

Definition leaveTeamTx (userUid : string) : Tx unit :=
  do systemData <- getSystem userUid;
  match teamOf systemData with
  | Some teamId =>
      do teamData <- getTeam teamId;
      if decide (teamData ≫= owner = Some userUid) then
        exec match teamData ≫= members with
           | Some ms =>
               txForEach ms (λ member, txWrite (SetSystemMerge member TeamNull true))
           | None => txRet tt
           end;
        txWrite (DeleteTeam teamId)
      else
        exec txWrite (SetTeamMembersMerge teamId (arrayRemove userUid));
        txWrite (SetSystemMerge userUid TeamNull true)
  | None => throwHttps failed_precondition "User is not in a team"
  end.

Definition _leaveTeamLogic (env : Env) (request : CallableRequest unit) (s : Store)
    : Outcome :=
  match validateAuth request with
  | inl e => (inl e, s)
  | inr userUid =>
      match runTransaction (serverTime env) s (leaveTeamTx userUid) with
      | (inr _, s') => (inr (Left true), s')
      | (inl e, s') => (inl (handleTeamError "leave team" e), s')
      end
  end.

Definition joinTeamTx (userUid : string) (data : JoinTeamData.t) : Tx unit :=
  do systemData <- getSystem userUid;
  match teamOf systemData with
  | Some _ => throwHttps failed_precondition "User is already in a team"
  | None =>
      match JoinTeamData.id data, JoinTeamData.password data with
      | Some teamId, Some pw =>
          if truthy teamId && truthy pw then
            do teamRef <- teamDoc teamId;
            do teamData <- getTeam teamRef;
            match teamData with
            | None => throwHttps not_found "Team doesn't exist"
            | Some _ =>
                if decide (teamData ≫= password = Some pw) then
                  if Qle_bool (capacity teamData) (inject_Z (membersLength teamData)) then
                    throwHttps resource_exhausted "Team is full"
                  else
                    exec txWrite (SetTeamMembersMerge teamRef (arrayUnion userUid));
                    txWrite (SetSystemMerge userUid (TeamStr teamId) false)
                else throwHttps unauthenticated "Wrong password"
            end
          else throwHttps invalid_argument "Team ID and password required."
      | _, _ => throwHttps invalid_argument "Team ID and password required."
      end
  end.

Definition _joinTeamLogic (env : Env) (request : CallableRequest JoinTeamData.t)
    (s : Store) : Outcome :=
  match validateAuth request with
  | inl e => (inl e, s)
  | inr userUid =>
      match runTransaction (serverTime env) s (joinTeamTx userUid (data request)) with
      | (inr _, s') => (inr (Joined true), s')
      | (inl e, s') => (inl (handleTeamError "join team" e), s')
      end
  end.

Definition createTeamTx (env : Env) (userUid : string) (data : CreateTeamData.t)
    : Tx (string * string) :=
  do systemData <- getSystem userUid;
  match teamOf systemData with
  | Some _ => throwHttps failed_precondition "User is already in a team."
  | None =>
      exec match systemData ≫= lastLeftTeam with
      | Some last =>
          let now := Timestamp.now (dateNow env) in
          let fiveMinutesAgo :=
            Timestamp.fromMillis (Timestamp.toMillis now - 5 * 60 * 1000) in
          if Timestamp.gt last fiveMinutesAgo then
            throwHttps failed_precondition
              "You must wait 5 minutes after leaving a team to create a new one."
          else txRet tt
      | None => txRet tt
      end;
      do teamId <- await (teamIdGen env);
      let teamPassword :=
        orElse (CreateTeamData.password data) (generateSecurePassword (passGen env)) in
      exec txWrite (SetTeam teamId userUid teamPassword
                    (orElseNumber (CreateTeamData.maximumMembers data) 10) [userUid]);
      exec txWrite (SetSystemMerge userUid (TeamStr teamId) false);
      txRet (teamId, teamPassword)
  end.

Definition _createTeamLogic (env : Env) (request : CallableRequest CreateTeamData.t)
    (s : Store) : Outcome :=
  match validateAuth request with
  | inl e => (inl e, s)
  | inr userUid =>
      match runTransaction (serverTime env) s (createTeamTx env userUid (data request)) with
      | (inr (createdTeam, finalTeamPassword), s') =>
          (inr (Created createdTeam finalTeamPassword), s')
      | (inl e, s') => (inl (handleTeamError "create team" e), s')
      end
  end.

Definition kickTeamMemberTx (userUid kicked : string) : Tx unit :=
  do systemData <- getSystem userUid;
  match teamOf systemData with
  | None => throwHttps failed_precondition "User is not in a team."
  | Some teamId =>
      do teamData <- getTeam teamId;
      if decide (teamData ≫= owner = Some userUid) then
        if decide (kicked ∈ default [] (teamData ≫= members)) then
          exec txWrite (SetTeamMembersMerge teamId (arrayRemove kicked));
          txWrite (SetSystemMerge kicked TeamNull true)
        else throwHttps not_found "User not found in team."
      else throwHttps permission_denied "Only the team owner can kick members."
  end.

Definition _kickTeamMemberLogic (env : Env)
    (request : CallableRequest KickTeamMemberData.t) (s : Store) : Outcome :=
  match validateAuth request with
  | inl e => (inl e, s)
  | inr userUid =>
      match KickTeamMemberData.kicked (data request) with
      | None => (inl (mkHttpsError invalid_argument "Kicked user ID required." None), s)
      | Some kicked =>
          if negb (truthy kicked) then
            (inl (mkHttpsError invalid_argument "Kicked user ID required." None), s)
          else if decide (kicked = userUid) then
            (inl (mkHttpsError invalid_argument "You can't kick yourself." None), s)
          else
            match runTransaction (serverTime env) s (kickTeamMemberTx userUid kicked) with
            | (inr _, s') => (inr (Kicked true), s')
            | (inl e, s') => (inl (handleTeamError "kick team member" e), s')
            end
      end
  end.

(** The four callable entry points as one labelled transition. *)
Inductive Operation :=
| createTeam (request : CallableRequest CreateTeamData.t)
| joinTeam (request : CallableRequest JoinTeamData.t)
| leaveTeam (request : CallableRequest unit)
| kickTeamMember (request : CallableRequest KickTeamMemberData.t).

Definition perform (env : Env) (op : Operation) (s : Store) : Outcome :=
  match op with
  | createTeam request => _createTeamLogic env request s
  | joinTeam request => _joinTeamLogic env request s
  | leaveTeam request => _leaveTeamLogic env request s
  | kickTeamMember request => _kickTeamMemberLogic env request s
  end.

(** * Properties *)

(** ** The transaction layer *)

Ltac tx_unfold :=
  unfold leaveTeamTx, joinTeamTx, createTeamTx, kickTeamMemberTx, await, teamDoc,
    throwHttps, txThrow, getSystem, getTeam, txWrite, txBind, txRet in *.

Lemma validDocumentPath_given id : validDocumentPath id = true → id ≠ "".
Proof.
  unfold validDocumentPath, truthy. intros H ->. by rewrite decide_True in H.
Qed.




Lemma Qle_bool_false x y : Qle_bool x y = false → (y < x)%Q.
Proof.
  intros H. apply Qnot_le_lt. intros Hle. apply Qle_bool_iff in Hle. congruence.
Qed.

Lemma runTransaction_throw {A} t s (body : Tx A) e s' :
  runTransaction t s body = (inl e, s') → s' = s.
Proof.
  unfold runTransaction. destruct (body s []) as [[e0 ws0]|[a ws]]; congruence.
Qed.

Lemma runTransaction_commit {A} t s (body : Tx A) a s' :
  runTransaction t s body = (inr a, s') →
  ∃ ws, body s [] = inr (a, ws) ∧ s' = commit t ws s.
Proof.
  unfold runTransaction. destruct (body s []) as [[e0 ws0]|[a0 ws]]; intros [= <- <-]; eauto.
Qed.

Lemma commit_app t ws1 ws2 s :
  commit t (ws1 ++ ws2) s = commit t ws2 (commit t ws1 s).
Proof. unfold commit. apply foldl_app. Qed.

Lemma txForEach_writes {A} (W : A → Write) xs snap ws :
  txForEach xs (λ x, txWrite (W x)) snap ws = inr (tt, (ws ++ map W xs)%list).
Proof.
  revert ws. induction xs as [|x xs IH]; intros ws; simpl.
  - unfold txRet. by rewrite app_nil_r.
  - unfold txBind, txWrite. rewrite IH. by rewrite <- app_assoc.
Qed.

(** In each of the four transaction bodies every [throw] comes before the
    first write is buffered. *)
Lemma leaveTeamTx_throws_first uid s e ws :
  leaveTeamTx uid s [] = inl (e, ws) → ws = [].
Proof.
  tx_unfold.
  destruct (teamOf (systemCol s !! uid)) as [tid|]; [|congruence].
  case_decide; [|discriminate].
  destruct ((teamCol s !! tid) ≫= members) as [ms|]; [|discriminate].
  by rewrite (txForEach_writes (λ member, SetSystemMerge member TeamNull true)).
Qed.

Lemma joinTeamTx_throws_first uid data s e ws :
  joinTeamTx uid data s [] = inl (e, ws) → ws = [].
Proof.
  tx_unfold.
  destruct (teamOf (systemCol s !! uid)); [congruence|].
  destruct (JoinTeamData.id data) as [tid|]; [|congruence].
  destruct (JoinTeamData.password data) as [pw|]; [|congruence].
  destruct (truthy tid && truthy pw); [|congruence].
  destruct (validDocumentPath tid); [|congruence].
  destruct (teamCol s !! tid) as [td|]; [|congruence].
  case_decide; [|congruence].
  destruct (Qle_bool _ _); [congruence|discriminate].
Qed.

Lemma createTeamTx_throws_first env uid data s e ws :
  createTeamTx env uid data s [] = inl (e, ws) → ws = [].
Proof.
  tx_unfold.
  destruct (teamOf (systemCol s !! uid)); [congruence|].
  destruct ((systemCol s !! uid) ≫= lastLeftTeam) as [last|].
  - destruct (Timestamp.gt last _); [congruence|].
    destruct (teamIdGen env); [congruence|discriminate].
  - destruct (teamIdGen env); [congruence|discriminate].
Qed.

Lemma kickTeamMemberTx_throws_first uid kicked s e ws :
  kickTeamMemberTx uid kicked s [] = inl (e, ws) → ws = [].
Proof.
  tx_unfold.
  destruct (teamOf (systemCol s !! uid)) as [tid|]; [|congruence].
  case_decide; [|congruence].
  case_decide; [discriminate|congruence].
Qed.

(** The writes of a disband: every roster entry is reset, in roster order. *)
Definition resetWrites (ms : list string) : list Write :=
  map (λ member, SetSystemMerge member TeamNull true) ms.

Lemma mergeSystem_reset_idem o t :
  mergeSystem (Some (mergeSystem o TeamNull (Some t))) TeamNull (Some t)
  = mergeSystem o TeamNull (Some t).
Proof. reflexivity. Qed.

Lemma commit_reset_team t ms s :
  teamCol (commit t (resetWrites ms) s) = teamCol s.
Proof.
  revert s. induction ms as [|m ms IH]; intros s; [done|].
  unfold resetWrites, commit in *. simpl. by rewrite IH.
Qed.

Lemma commit_reset_system t ms s uid :
  systemCol (commit t (resetWrites ms) s) !! uid =
    if decide (uid ∈ ms)
    then Some (mergeSystem (systemCol s !! uid) TeamNull (Some t))
    else systemCol s !! uid.
Proof.
  revert s. induction ms as [|m ms IH]; intros s.
  - by rewrite decide_False by apply not_elem_of_nil.
  - change (commit t (resetWrites (m :: ms)) s)
      with (commit t (resetWrites ms) (applyWrite t s (SetSystemMerge m TeamNull true))).
    rewrite IH.
    change (systemCol (applyWrite t s (SetSystemMerge m TeamNull true)))
      with (<[m := mergeSystem (systemCol s !! m) TeamNull (Some t)]> (systemCol s)).
    destruct (decide (uid = m)) as [->|Hne].
    + rewrite lookup_insert_eq, mergeSystem_reset_idem.
      rewrite (decide_True (P := m ∈ m :: ms)) by (apply elem_of_cons; auto).
      by case_decide.
    + rewrite lookup_insert_ne by done.
      destruct (decide (uid ∈ ms)) as [Hin|Hnin].
      * by rewrite decide_True by (apply elem_of_cons; auto).
      * rewrite decide_False; [done|].
        intros [?|?]%elem_of_cons; contradiction.
Qed.

(** ** What each successful call wrote *)

Definition fiveMinutesAgo (env : Env) : Z :=
  Timestamp.fromMillis (Timestamp.toMillis (Timestamp.now (dateNow env)) - 5 * 60 * 1000).

Definition createWrites (uid tid pw : string) (maxMembers : Q) : list Write :=
  [SetTeam tid uid pw maxMembers [uid]; SetSystemMerge uid (TeamStr tid) false].

Definition joinWrites (uid tid : string) : list Write :=
  [SetTeamMembersMerge tid (arrayUnion uid); SetSystemMerge uid (TeamStr tid) false].

Definition departWrites (uid tid : string) : list Write :=
  [SetTeamMembersMerge tid (arrayRemove uid); SetSystemMerge uid TeamNull true].

Definition disbandWrites (tid : string) (ms : list string) : list Write :=
  (resetWrites ms ++ [DeleteTeam tid])%list.

Lemma createTeam_success env request s r s' :
  _createTeamLogic env request s = (inr r, s') →
  ∃ uid tid,
    auth request = Some uid ∧
    teamOf (systemCol s !! uid) = None ∧
    (∀ last, (systemCol s !! uid) ≫= lastLeftTeam = Some last →
             Timestamp.gt last (fiveMinutesAgo env) = false) ∧
    teamIdGen env = generatorReturns tid ∧
    r = Created tid
          (orElse (CreateTeamData.password (data request))
                  (generateSecurePassword (passGen env))) ∧
    s' = commit (serverTime env)
           (createWrites uid tid
              (orElse (CreateTeamData.password (data request))
                      (generateSecurePassword (passGen env)))
              (orElseNumber (CreateTeamData.maximumMembers (data request)) 10)) s.
Proof.
  unfold _createTeamLogic, validateAuth, runTransaction, fiveMinutesAgo.
  destruct (auth request) as [uid|]; [|discriminate].
  tx_unfold. intros H. exists uid.
  destruct (teamOf (systemCol s !! uid)) eqn:Hteam; [discriminate|].
  destruct (teamIdGen env) as [msg|tid] eqn:Hgen.
  - destruct ((systemCol s !! uid) ≫= lastLeftTeam) as [last|]; [|discriminate].
    destruct (Timestamp.gt last _); discriminate.
  - exists tid.
    destruct ((systemCol s !! uid) ≫= lastLeftTeam) as [last|].
    + destruct (Timestamp.gt last _) eqn:Hgt; [discriminate|].
      injection H as <- <-. repeat split; try done. by intros ? [= <-].
    + injection H as <- <-. repeat split; done.
Qed.

Lemma joinTeam_success env request s r s' :
  _joinTeamLogic env request s = (inr r, s') →
  ∃ uid tid pw td,
    auth request = Some uid ∧
    teamOf (systemCol s !! uid) = None ∧
    JoinTeamData.id (data request) = Some tid ∧ tid ≠ "" ∧
    JoinTeamData.password (data request) = Some pw ∧ pw ≠ "" ∧
    teamCol s !! tid = Some td ∧ password td = Some pw ∧
    (inject_Z (membersLength (Some td)) < capacity (Some td))%Q ∧
    r = Joined true ∧
    s' = commit (serverTime env) (joinWrites uid tid) s.
Proof.
  unfold _joinTeamLogic, validateAuth, runTransaction.
  destruct (auth request) as [uid|]; [|discriminate].
  tx_unfold. intros H.
  destruct (teamOf (systemCol s !! uid)) eqn:Hteam; [discriminate|].
  destruct (JoinTeamData.id (data request)) as [tid|]; [|discriminate].
  destruct (JoinTeamData.password (data request)) as [pw|]; [|discriminate].
  unfold truthy in H.
  destruct (decide (tid = "")); [discriminate|].
  destruct (decide (pw = "")); [discriminate|]. simpl in H.
  destruct (validDocumentPath tid); [|discriminate].
  destruct (teamCol s !! tid) as [td|] eqn:Htd; [|discriminate].
  destruct (decide (Some td ≫= password = Some pw)) as [Hpw|]; [|discriminate].
  destruct (Qle_bool _ _) eqn:Hfull; [discriminate|].
  injection H as <- <-.
  exists uid, tid, pw, td. do 8 (split; [done|]). split; [|done].
  by apply Qle_bool_false.
Qed.

Lemma leaveTeam_success env request s r s' :
  _leaveTeamLogic env request s = (inr r, s') →
  ∃ uid tid,
    auth request = Some uid ∧
    teamOf (systemCol s !! uid) = Some tid ∧
    r = Left true ∧
    ((teamCol s !! tid) ≫= owner = Some uid ∧
       s' = commit (serverTime env)
              (disbandWrites tid (default [] ((teamCol s !! tid) ≫= members))) s
     ∨
     (teamCol s !! tid) ≫= owner ≠ Some uid ∧
       s' = commit (serverTime env) (departWrites uid tid) s).
Proof.
  unfold _leaveTeamLogic, validateAuth, runTransaction.
  destruct (auth request) as [uid|]; [|discriminate].
  tx_unfold. intros H. exists uid.
  destruct (teamOf (systemCol s !! uid)) as [tid|] eqn:Hteam; [|discriminate].
  exists tid.
  destruct (decide ((teamCol s !! tid) ≫= owner = Some uid)) as [Hown|Hown].
  - destruct ((teamCol s !! tid) ≫= members) as [ms|].
    + rewrite (txForEach_writes (λ member, SetSystemMerge member TeamNull true)) in H.
      injection H as <- <-. repeat split; try done. by left.
    + injection H as <- <-. repeat split; try done. by left.
  - injection H as <- <-. repeat split; try done. by right.
Qed.

Lemma kickTeamMember_success env request s r s' :
  _kickTeamMemberLogic env request s = (inr r, s') →
  ∃ uid kicked tid,
    auth request = Some uid ∧
    KickTeamMemberData.kicked (data request) = Some kicked ∧
    kicked ≠ "" ∧ kicked ≠ uid ∧
    teamOf (systemCol s !! uid) = Some tid ∧
    (teamCol s !! tid) ≫= owner = Some uid ∧
    kicked ∈ default [] ((teamCol s !! tid) ≫= members) ∧
    r = Kicked true ∧
    s' = commit (serverTime env) (departWrites kicked tid) s.
Proof.
  unfold _kickTeamMemberLogic, validateAuth, runTransaction.
  destruct (auth request) as [uid|]; [|discriminate].
  destruct (KickTeamMemberData.kicked (data request)) as [kicked|]; [|discriminate].
  unfold truthy. destruct (decide (kicked = "")); [discriminate|]. simpl.
  destruct (decide (kicked = uid)); [discriminate|].
  tx_unfold. intros H.
  destruct (teamOf (systemCol s !! uid)) as [tid|] eqn:Hteam; [|discriminate].
  destruct (decide ((teamCol s !! tid) ≫= owner = Some uid)) as [Hown|]; [|discriminate].
  destruct (decide (kicked ∈ default [] ((teamCol s !! tid) ≫= members))); [|discriminate].
  injection H as <- <-.
  exists uid, kicked, tid. repeat split; done.
Qed.

(** A failed call leaves the store as it found it. *)
Lemma perform_failure env op s e s' :
  perform env op s = (inl e, s') → s' = s.
Proof.
  destruct op as [request|request|request|request]; simpl;
    [unfold _createTeamLogic|unfold _joinTeamLogic
    |unfold _leaveTeamLogic|unfold _kickTeamMemberLogic];
    destruct (validateAuth request) as [e0|uid]; try congruence.
  - destruct (runTransaction _ _ _) as [[e1|[tid pw]] s1] eqn:Hrun; [|discriminate].
    intros [= _ <-]. by apply runTransaction_throw in Hrun.
  - destruct (runTransaction _ _ _) as [[e1|[]] s1] eqn:Hrun; [|discriminate].
    intros [= _ <-]. by apply runTransaction_throw in Hrun.
  - destruct (runTransaction _ _ _) as [[e1|[]] s1] eqn:Hrun; [|discriminate].
    intros [= _ <-]. by apply runTransaction_throw in Hrun.
  - destruct (KickTeamMemberData.kicked (data request)) as [kicked|]; [|congruence].
    destruct (negb (truthy kicked)); [congruence|].
    destruct (decide (kicked = uid)); [congruence|].
    destruct (runTransaction _ _ _) as [[e1|[]] s1] eqn:Hrun; [|discriminate].
    intros [= _ <-]. by apply runTransaction_throw in Hrun.
Qed.

(** ** Membership consistency *)

(** Every membership that names a team names an existing team whose roster
    lists the user. *)
Definition membershipConsistent (s : Store) : Prop :=
  ∀ uid d tid,
    systemCol s !! uid = Some d → team d = TeamStr tid →
    ∃ td ms, teamCol s !! tid = Some td ∧ members td = Some ms ∧ uid ∈ ms.


(** The id drawn for a new team is not the id of a stored team. *)
Definition idIsFresh (env : Env) (op : Operation) (s : Store) : Prop :=
  match op with
  | createTeam _ => ∀ tid, teamIdGen env = generatorReturns tid → teamCol s !! tid = None
  | _ => True
  end.


Lemma consistent_empty : membershipConsistent emptyStore.
Proof. intros uid d tid H. simpl in H. by rewrite lookup_empty in H. Qed.


Lemma elem_of_arrayUnion_old uid x ms :
  x ∈ ms → x ∈ applyTransform (arrayUnion uid) (Some ms).
Proof.
  unfold applyTransform. simpl. case_decide; [done|].
  intros ?. apply elem_of_app. by left.
Qed.

Lemma elem_of_arrayRemove uid x ms :
  x ≠ uid → x ∈ ms → x ∈ applyTransform (arrayRemove uid) (Some ms).
Proof. intros ? ?. unfold applyTransform. simpl. by apply list_elem_of_filter. Qed.






(** ** The capacity bound *)

(** Every stored roster is no longer than the capacity [_joinTeamLogic]
    reads for it. *)
Definition withinCapacity (s : Store) : Prop :=
  ∀ tid td, teamCol s !! tid = Some td →
    (inject_Z (membersLength (Some td)) <= capacity (Some td))%Q.

(** Every stored capacity is a whole number. *)
Definition wholeCapacities (s : Store) : Prop :=
  ∀ tid td, teamCol s !! tid = Some td → whole (capacity (Some td)).

(** The [maximumMembers] argument of a [createTeam] request is a whole
    number and not negative. *)
Definition capacityAccepted (op : Operation) : Prop :=
  match op with
  | createTeam request =>
      ∀ n, CreateTeamData.maximumMembers (data request) = Some n →
           whole n ∧ (0 <= n)%Q
  | _ => True
  end.

Lemma membersLength_eq td :
  membersLength (Some td) = Z.of_nat (length (default [] (members td))).
Proof. unfold membersLength. simpl. by destruct (members td). Qed.


Lemma membersLength_merge td tr :
  membersLength (Some (mergeTeamMembers (Some td) tr))
  = Z.of_nat (length (applyTransform tr (members td))).
Proof. reflexivity. Qed.

Lemma capacity_empty : withinCapacity emptyStore.
Proof. intros tid td H. simpl in H. by rewrite lookup_empty in H. Qed.

Lemma whole_empty : wholeCapacities emptyStore.
Proof. intros tid td H. simpl in H. by rewrite lookup_empty in H. Qed.

Lemma whole_integer z : whole (inject_Z z).
Proof. by exists z. Qed.

(** A whole number that is not negative and not zero is at least one. *)
Lemma whole_positive n : whole n → (0 <= n)%Q → ¬ (n == 0)%Q → (1 <= n)%Q.
Proof.
  intros [z Hz] Hpos Hnonzero. rewrite Hz in *.
  change 0%Q with (inject_Z 0) in *. change 1%Q with (inject_Z 1).
  rewrite <- Zle_Qle in *.
  assert (z ≠ 0) by (intros ->; by apply Hnonzero). lia.
Qed.

Lemma orElseNumber_accepted m :
  (∀ n, m = Some n → whole n ∧ (0 <= n)%Q) →
  whole (orElseNumber m 10) ∧ (1 <= orElseNumber m 10)%Q.
Proof.
  intros H. unfold orElseNumber. destruct m as [n|]; [|split; [apply (whole_integer 10)|done]].
  destruct (Qeq_bool n 0) eqn:Hzero; [split; [apply (whole_integer 10)|done]|].
  destruct (H n eq_refl) as [Hwhole Hpos]. split; [done|].
  apply whole_positive; [done..|]. by apply Qeq_bool_neq.
Qed.

(** A roster below a whole capacity stays within it when it grows by one. *)
Lemma within_after_growth (len len' : Z) (cap : Q) :
  whole cap → (inject_Z len < cap)%Q → len' ≤ len + 1 → (inject_Z len' <= cap)%Q.
Proof.
  intros [z Hz] Hroom Hlen. rewrite Hz in *.
  rewrite <- Zlt_Qlt in Hroom. rewrite <- Zle_Qle. lia.
Qed.

(** One more entry would exceed a whole capacity exactly when the roster
    has reached it. *)
Lemma full_when_exceeding (len : Z) (cap : Q) :
  whole cap → (cap < inject_Z (len + 1))%Q → (cap <= inject_Z len)%Q.
Proof.
  intros [z Hz] Hover. rewrite Hz in *.
  rewrite <- Zlt_Qlt in Hover. rewrite <- Zle_Qle. lia.
Qed.

Lemma within_after_shrink (len len' : Z) (cap : Q) :
  (inject_Z len <= cap)%Q → len' ≤ len → (inject_Z len' <= cap)%Q.
Proof.
  intros Hcap Hlen. eapply Qle_trans; [|exact Hcap]. by rewrite <- Zle_Qle.
Qed.

Lemma room_after_shrink (len len' : Z) (cap : Q) :
  (inject_Z len <= cap)%Q → len' < len → (inject_Z len' < cap)%Q.
Proof.
  intros Hcap Hlen. eapply Qlt_le_trans; [|exact Hcap]. by rewrite <- Zlt_Qlt.
Qed.

Lemma length_arrayUnion uid o :
  (length (applyTransform (arrayUnion uid) o) ≤ S (length (default [] o)))%nat.
Proof.
  unfold applyTransform. case_decide; [lia|].
  rewrite length_app. simpl. lia.
Qed.

Lemma length_arrayRemove uid o :
  (length (applyTransform (arrayRemove uid) o) ≤ length (default [] o))%nat.
Proof. unfold applyTransform. apply length_filter. Qed.

Lemma capacity_create t uid tid pw maxMembers s :
  withinCapacity s → (1 <= maxMembers)%Q →
  withinCapacity (commit t (createWrites uid tid pw maxMembers) s).
Proof.
  intros Hinv Hmax tid' td. simpl.
  destruct (decide (tid' = tid)) as [->|Hne].
  - rewrite lookup_insert_eq. intros [= <-]. exact Hmax.
  - rewrite lookup_insert_ne by done. apply Hinv.
Qed.

Lemma whole_create t uid tid pw maxMembers s :
  wholeCapacities s → whole maxMembers →
  wholeCapacities (commit t (createWrites uid tid pw maxMembers) s).
Proof.
  intros Hinv Hmax tid' td. simpl.
  destruct (decide (tid' = tid)) as [->|Hne].
  - rewrite lookup_insert_eq. intros [= <-]. exact Hmax.
  - rewrite lookup_insert_ne by done. apply Hinv.
Qed.

(** Join, leave and kick write the roster only: the capacity stays. *)
Lemma whole_merge s tid tr sys :
  wholeCapacities s →
  wholeCapacities
    (mkStore sys (<[tid := mergeTeamMembers (teamCol s !! tid) tr]> (teamCol s))).
Proof.
  intros Hinv tid' td'. simpl.
  destruct (decide (tid' = tid)) as [->|Hne].
  - rewrite lookup_insert_eq. intros [= <-].
    destruct (teamCol s !! tid) as [td|] eqn:Htd.
    + exact (Hinv _ _ Htd).
    + apply (whole_integer 10).
  - rewrite lookup_insert_ne by done. apply Hinv.
Qed.

Lemma capacity_join t uid tid td s :
  withinCapacity s → teamCol s !! tid = Some td →
  whole (capacity (Some td)) →
  (inject_Z (membersLength (Some td)) < capacity (Some td))%Q →
  withinCapacity (commit t (joinWrites uid tid) s).
Proof.
  intros Hinv Htd Hwhole Hroom tid' td'. simpl.
  destruct (decide (tid' = tid)) as [->|Hne].
  - rewrite lookup_insert_eq, Htd. intros [= <-].
    change (capacity (Some (mergeTeamMembers (Some td) (arrayUnion uid))))
      with (capacity (Some td)).
    apply (within_after_growth (membersLength (Some td))); [done|done|].
    rewrite membersLength_merge, membersLength_eq.
    pose proof (length_arrayUnion uid (members td)). lia.
  - rewrite lookup_insert_ne by done. apply Hinv.
Qed.

Lemma capacity_depart t uid tid s :
  withinCapacity s →
  withinCapacity (commit t (departWrites uid tid) s).
Proof.
  intros Hinv tid' td'. simpl.
  destruct (decide (tid' = tid)) as [->|Hne].
  - rewrite lookup_insert_eq. intros [= <-].
    destruct (teamCol s !! tid) as [td|] eqn:Htd.
    + change (capacity (Some (mergeTeamMembers (Some td) (arrayRemove uid))))
        with (capacity (Some td)).
      apply (within_after_shrink (membersLength (Some td))); [exact (Hinv _ _ Htd)|].
      rewrite membersLength_merge, membersLength_eq.
      pose proof (length_arrayRemove uid (members td)). lia.
    + done.
  - rewrite lookup_insert_ne by done. apply Hinv.
Qed.

Lemma capacity_disband t tid ms s :
  withinCapacity s →
  withinCapacity (commit t (disbandWrites tid ms) s).
Proof.
  intros Hinv tid' td'. unfold disbandWrites. rewrite commit_app.
  change (commit t [DeleteTeam tid] ?s0) with (applyWrite t s0 (DeleteTeam tid)).
  simpl. rewrite commit_reset_team.
  intros [_ Htd]%lookup_delete_Some. by eapply Hinv.
Qed.

Lemma whole_disband t tid ms s :
  wholeCapacities s →
  wholeCapacities (commit t (disbandWrites tid ms) s).
Proof.
  intros Hinv tid' td'. unfold disbandWrites. rewrite commit_app.
  change (commit t [DeleteTeam tid] ?s0) with (applyWrite t s0 (DeleteTeam tid)).
  simpl. rewrite commit_reset_team.
  intros [_ Htd]%lookup_delete_Some. by eapply Hinv.
Qed.

Lemma whole_perform env op s :
  wholeCapacities s → capacityAccepted op →
  wholeCapacities (snd (perform env op s)).
Proof.
  intros Hinv Hacc.
  destruct (perform env op s) as [[e|r] s'] eqn:Hrun; simpl.
  - by rewrite (perform_failure _ _ _ _ _ Hrun).
  - destruct op as [request|request|request|request]; simpl in Hrun.
    + apply createTeam_success in Hrun as (uid & tid & _ & _ & _ & _ & _ & ->).
      apply whole_create; [done|]. by apply orElseNumber_accepted.
    + apply joinTeam_success in Hrun
        as (uid & tid & pw & td & _ & _ & _ & _ & _ & _ & _ & _ & _ & _ & ->).
      by apply whole_merge.
    + apply leaveTeam_success in Hrun as (uid & tid & _ & _ & _ & [[_ ->]|[_ ->]]).
      * by apply whole_disband.
      * by apply whole_merge.
    + apply kickTeamMember_success in Hrun
        as (uid & kicked & tid & _ & _ & _ & _ & _ & _ & _ & _ & ->).
      by apply whole_merge.
Qed.

Lemma capacity_perform env op s :
  withinCapacity s → wholeCapacities s → capacityAccepted op →
  withinCapacity (snd (perform env op s)).
Proof.
  intros Hinv Hwhole Hacc.
  destruct (perform env op s) as [[e|r] s'] eqn:Hrun; simpl.
  - by rewrite (perform_failure _ _ _ _ _ Hrun).
  - destruct op as [request|request|request|request]; simpl in Hrun.
    + apply createTeam_success in Hrun as (uid & tid & _ & _ & _ & _ & _ & ->).
      apply capacity_create; [done|]. by apply orElseNumber_accepted.
    + apply joinTeam_success in Hrun
        as (uid & tid & pw & td & _ & _ & _ & _ & _ & _ & Htd & _ & Hroom & _ & ->).
      eapply capacity_join; [done..| |done]. by eapply Hwhole.
    + apply leaveTeam_success in Hrun as (uid & tid & _ & _ & _ & [[_ ->]|[_ ->]]).
      * by apply capacity_disband.
      * by apply capacity_depart.
    + apply kickTeamMember_success in Hrun
        as (uid & kicked & tid & _ & _ & _ & _ & _ & _ & _ & _ & ->).
      by apply capacity_depart.
Qed.

(** ** The branches of [_joinTeamLogic], one by one *)

Section JoinBranches.
Variables (env : Env) (uid : string) (data : JoinTeamData.t) (s : Store).

Let run := _joinTeamLogic env (mkRequest (Some uid) data) s.

Lemma join_already_in_team tid0 :
  teamOf (systemCol s !! uid) = Some tid0 →
  run = (inl (mkHttpsError failed_precondition "User is already in a team" None), s).
Proof.
  intros H. subst run.
  unfold _joinTeamLogic, validateAuth, runTransaction. simpl. tx_unfold.
  by rewrite H.
Qed.


Section WithArguments.
Variables (tid pw : string).
Hypothesis Hfree : teamOf (systemCol s !! uid) = None.
Hypothesis Hid : JoinTeamData.id data = Some tid.
Hypothesis Hpw : JoinTeamData.password data = Some pw.
Hypothesis Hid_valid : validDocumentPath tid = true.
Hypothesis Hpw_given : pw ≠ "".

Lemma join_reaches_team :
  run =
    match runTransaction (serverTime env) s
      (do teamData <- getTeam tid;
       match teamData with
       | None => throwHttps not_found "Team doesn't exist"
       | Some _ =>
           if decide (teamData ≫= password = Some pw) then
             if Qle_bool (capacity teamData) (inject_Z (membersLength teamData)) then
               throwHttps resource_exhausted "Team is full"
             else
               exec txWrite (SetTeamMembersMerge tid (arrayUnion uid));
               txWrite (SetSystemMerge uid (TeamStr tid) false)
           else throwHttps unauthenticated "Wrong password"
       end) with
    | (inr _, s') => (inr (Joined true), s')
    | (inl e, s') => (inl (handleTeamError "join team" e), s')
    end.
Proof.
  subst run.
  unfold _joinTeamLogic, validateAuth, runTransaction, joinTeamTx. simpl.
  unfold txBind at 1. unfold getSystem at 1. rewrite Hfree, Hid, Hpw.
  pose proof (validDocumentPath_given _ Hid_valid) as Hid_given.
  unfold truthy. rewrite !decide_False by done. simpl.
  unfold txBind at 1. unfold teamDoc. by rewrite Hid_valid.
Qed.

Lemma join_not_found :
  teamCol s !! tid = None →
  run = (inl (mkHttpsError not_found "Team doesn't exist" None), s).
Proof.
  intros H. rewrite join_reaches_team.
  unfold runTransaction. tx_unfold. by rewrite H.
Qed.


Lemma join_full td :
  teamCol s !! tid = Some td → password td = Some pw →
  (capacity (Some td) <= inject_Z (membersLength (Some td)))%Q →
  run = (inl (mkHttpsError resource_exhausted "Team is full" None), s).
Proof.
  intros H Heq Hfull. rewrite join_reaches_team.
  unfold runTransaction. tx_unfold. rewrite H. simpl.
  rewrite decide_True by done.
  by rewrite (proj2 (Qle_bool_iff _ _) Hfull).
Qed.

Lemma join_ok td :
  teamCol s !! tid = Some td → password td = Some pw →
  (inject_Z (membersLength (Some td)) < capacity (Some td))%Q →
  run = (inr (Joined true), commit (serverTime env) (joinWrites uid tid) s).
Proof.
  intros H Heq Hroom. rewrite join_reaches_team.
  unfold runTransaction. tx_unfold. rewrite H. simpl.
  rewrite decide_True by done.
  destruct (Qle_bool _ _) eqn:E; [|done].
  apply Qle_bool_iff in E. by destruct (Qlt_not_le _ _ Hroom).
Qed.
End WithArguments.

(** An id that is given but is no document path: [doc] throws, and the
    [catch] wraps the error as [internal]. *)
Lemma join_invalid_path tid pw :
  teamOf (systemCol s !! uid) = None →
  JoinTeamData.id data = Some tid → JoinTeamData.password data = Some pw →
  tid ≠ "" → pw ≠ "" → validDocumentPath tid = false →
  ∃ reason,
    run = (inl (mkHttpsError internal "Error during join team" (Some reason)), s).
Proof.
  intros Hfree Hid Hpw Hgiven Hpw_given Hbad. subst run.
  unfold _joinTeamLogic, validateAuth, runTransaction. simpl. tx_unfold.
  rewrite Hfree, Hid, Hpw. unfold truthy. rewrite !decide_False by done. simpl.
  rewrite Hbad. by eexists.
Qed.
End JoinBranches.

(** ** The other three calls as decision trees *)

(** Five minutes, in the unit of timestamps. *)
Definition cooldown : Z := 5 * 60 * 1000 * Timestamp.MS_TO_NANOS.

Lemma fiveMinutesAgo_eq env :
  fiveMinutesAgo env = Timestamp.now (dateNow env) - cooldown.
Proof.
  unfold fiveMinutesAgo, cooldown, Timestamp.now, Timestamp.toMillis,
    Timestamp.fromMillis, Timestamp.MS_TO_NANOS.
  rewrite Z.div_mul by lia. lia.
Qed.

(** Whether the cooldown check of [_createTeamLogic] fires. *)
Definition cooling (env : Env) (systemData : option SystemDocData) : bool :=
  match systemData ≫= lastLeftTeam with
  | Some last => Timestamp.gt last (fiveMinutesAgo env)
  | None => false
  end.

Definition finalPassword (env : Env) (data : CreateTeamData.t) : string :=
  orElse (CreateTeamData.password data) (generateSecurePassword (passGen env)).

Lemma createTeam_tree env uid data s :
  _createTeamLogic env (mkRequest (Some uid) data) s =
    match teamOf (systemCol s !! uid) with
    | Some _ =>
        (inl (mkHttpsError failed_precondition "User is already in a team." None), s)
    | None =>
        if cooling env (systemCol s !! uid) then
          (inl (mkHttpsError failed_precondition
                  "You must wait 5 minutes after leaving a team to create a new one."
                  None), s)
        else
          match teamIdGen env with
          | generatorThrows msg =>
              (inl (mkHttpsError internal "Error during create team" (Some msg)), s)
          | generatorReturns tid =>
              (inr (Created tid (finalPassword env data)),
               commit (serverTime env)
                 (createWrites uid tid (finalPassword env data)
                    (orElseNumber (CreateTeamData.maximumMembers data) 10)) s)
          end
    end.
Proof.
  unfold _createTeamLogic, validateAuth, runTransaction, cooling, fiveMinutesAgo,
    finalPassword.
  simpl. tx_unfold.
  destruct (teamOf (systemCol s !! uid)); [done|].
  destruct ((systemCol s !! uid) ≫= lastLeftTeam) as [last|].
  - destruct (Timestamp.gt last _); [done|]. by destruct (teamIdGen env).
  - by destruct (teamIdGen env).
Qed.

Lemma leaveTeam_tree env uid s :
  _leaveTeamLogic env (mkRequest (Some uid) tt) s =
    match teamOf (systemCol s !! uid) with
    | None => (inl (mkHttpsError failed_precondition "User is not in a team" None), s)
    | Some tid =>
        if decide ((teamCol s !! tid) ≫= owner = Some uid) then
          (inr (Left true),
           commit (serverTime env)
             (disbandWrites tid (default [] ((teamCol s !! tid) ≫= members))) s)
        else
          (inr (Left true), commit (serverTime env) (departWrites uid tid) s)
    end.
Proof.
  unfold _leaveTeamLogic, validateAuth, runTransaction. simpl. tx_unfold.
  destruct (teamOf (systemCol s !! uid)) as [tid|]; [|done].
  case_decide; [|done].
  destruct ((teamCol s !! tid) ≫= members) as [ms|]; [|done].
  by rewrite (txForEach_writes (λ member, SetSystemMerge member TeamNull true)).
Qed.

Lemma kickTeamMember_tree env uid kicked s :
  kicked ≠ "" → kicked ≠ uid →
  _kickTeamMemberLogic env (mkRequest (Some uid) (KickTeamMemberData.mk (Some kicked))) s =
    match teamOf (systemCol s !! uid) with
    | None => (inl (mkHttpsError failed_precondition "User is not in a team." None), s)
    | Some tid =>
        if decide ((teamCol s !! tid) ≫= owner = Some uid) then
          if decide (kicked ∈ default [] ((teamCol s !! tid) ≫= members)) then
            (inr (Kicked true), commit (serverTime env) (departWrites kicked tid) s)
          else (inl (mkHttpsError not_found "User not found in team." None), s)
        else
          (inl (mkHttpsError permission_denied "Only the team owner can kick members."
                  None), s)
    end.
Proof.
  intros Hgiven Hother.
  unfold _kickTeamMemberLogic, validateAuth, runTransaction, truthy. simpl.
  rewrite !decide_False by done. simpl. tx_unfold.
  destruct (teamOf (systemCol s !! uid)) as [tid|]; [|done].
  by repeat case_decide.
Qed.

(** ** Sample data *)

Definition asUser {D} (uid : string) (d : D) : CallableRequest D :=
  mkRequest (Some uid) d.

(** Clock at 1000 s, commit stamped at 1000 s, the id generator yields
    ["T1"], the password generator a usable string. *)
Definition sampleEnv : Env :=
  mkEnv 1000000 1000000000000 (generatorReturns "T1")
    (generatorReturns (Some "s3cretPassw0rd")).

Definition createRequest (uid : string) (maxMembers : option Q)
    : CallableRequest CreateTeamData.t :=
  asUser uid (CreateTeamData.mk None maxMembers).

Definition joinRequest (uid tid pw : string) : CallableRequest JoinTeamData.t :=
  asUser uid (JoinTeamData.mk (Some tid) (Some pw)).

Definition kickRequest (uid kicked : string) : CallableRequest KickTeamMemberData.t :=
  asUser uid (KickTeamMemberData.mk (Some kicked)).

(** "owner" has created team ["T1"] with room for two. *)
Definition ownerStore : Store :=
  snd (perform sampleEnv (createTeam (createRequest "owner" (Some 2%Q))) emptyStore).

(** "member" has joined it. *)
Definition fullStore : Store :=
  snd (perform sampleEnv (joinTeam (joinRequest "member" "T1" "s3cretPassw0rd")) ownerStore).


(** * The claims *)

(** C2: for each of the four operations and every starting store, a call
    that returns an error (any [HttpsError], whether thrown before the
    transaction, inside it, or wrapped as [internal]) leaves the store
    exactly as it was: nothing is created, changed or deleted. *)
Theorem failed_call_leaves_store_unchanged env op s e :
  fst (perform env op s) = inl e → snd (perform env op s) = s.
Proof.
  destruct (perform env op s) as [r s'] eqn:Hrun. simpl. intros ->.
  by eapply perform_failure.
Qed.

Lemma failed_call_leaves_store_unchanged_witness :
  fst (perform sampleEnv (joinTeam (joinRequest "third" "T1" "s3cretPassw0rd")) fullStore)
    = inl (mkHttpsError resource_exhausted "Team is full" None)
  ∧ snd (perform sampleEnv (joinTeam (joinRequest "third" "T1" "s3cretPassw0rd")) fullStore)
    = fullStore.
Proof.
  split; [vm_compute; reflexivity|].
  apply (failed_call_leaves_store_unchanged sampleEnv
           (joinTeam (joinRequest "third" "T1" "s3cretPassw0rd")) fullStore
           (mkHttpsError resource_exhausted "Team is full" None)).
  vm_compute; reflexivity.
Defined.




(** C3, as the code has it: if every stored roster is within its capacity
    ([maximumMembers], 10 when the field is absent) and every stored capacity
    is a whole number, both still hold after any of the four operations,
    provided a [createTeam] request passes no [maximumMembers] or one that is
    a whole number and not negative; a join that reaches a team whose roster
    would exceed its capacity with one more entry fails with
    [resource-exhausted]; and the team a successful [createTeam] stores has
    one member and a whole capacity of at least one. *)
Theorem capacity_bound_after_operation env op s :
  withinCapacity s → wholeCapacities s → capacityAccepted op →
  (∀ tid td, teamCol (snd (perform env op s)) !! tid = Some td →
     (inject_Z (Z.of_nat (length (default [] (members td))))
      <= default 10 (maximumMembers td))%Q
     ∧ whole (default 10%Q (maximumMembers td)))
  ∧ withinCapacity (snd (perform env op s))
  ∧ wholeCapacities (snd (perform env op s))
  ∧ (∀ uid data tid pw td,
       op = joinTeam (mkRequest (Some uid) data) →
       teamOf (systemCol s !! uid) = None →
       JoinTeamData.id data = Some tid → JoinTeamData.password data = Some pw →
       validDocumentPath tid = true → pw ≠ "" →
       teamCol s !! tid = Some td → password td = Some pw →
       (default 10 (maximumMembers td)
        < inject_Z (Z.of_nat (length (default [] (members td))) + 1))%Q →
       perform env op s = (inl (mkHttpsError resource_exhausted "Team is full" None), s))
  ∧ (∀ request tid pw,
       op = createTeam request →
       fst (perform env op s) = inr (Created tid pw) →
       ∃ td member cap,
         teamCol (snd (perform env op s)) !! tid = Some td
         ∧ members td = Some [member] ∧ maximumMembers td = Some cap
         ∧ whole cap ∧ (1 <= cap)%Q).
Proof.
  intros Hinv Hwhole Hacc.
  pose proof (capacity_perform env op s Hinv Hwhole Hacc) as Hafter.
  pose proof (whole_perform env op s Hwhole Hacc) as Hwhole'.
  split; [|split; [done|split; [done|split]]].
  - intros tid td Htd. split.
    + rewrite <- membersLength_eq. exact (Hafter _ _ Htd).
    + exact (Hwhole' _ _ Htd).
  - intros uid data tid pw td -> Hfree Hid Hpw Hvalid Hne2 Htd Hpass Hover. simpl.
    eapply join_full; try done. rewrite membersLength_eq.
    apply full_when_exceeding; [exact (Hwhole _ _ Htd)|exact Hover].
  - intros request tid pw -> Hok. simpl in *.
    destruct (_createTeamLogic env request s) as [r s'] eqn:Hrun. simpl in *. subst r.
    apply createTeam_success in Hrun as (uid & tid' & _ & _ & _ & _ & [= <- <-] & ->).
    eexists _, _, _. split; [apply lookup_insert_eq|].
    split; [done|]. split; [done|]. by apply orElseNumber_accepted.
Qed.

Lemma capacity_bound_after_operation_witness :
  withinCapacity fullStore ∧ wholeCapacities fullStore.
Proof.
  destruct (capacity_bound_after_operation sampleEnv
              (createTeam (createRequest "owner" (Some 2%Q))) emptyStore
              capacity_empty whole_empty) as (_ & Hwithin & Hwhole & _).
  - intros n [= <-]. split; [apply (whole_integer 2)|done].
  - destruct (capacity_bound_after_operation sampleEnv
                (joinTeam (joinRequest "member" "T1" "s3cretPassw0rd")) ownerStore
                Hwithin Hwhole I) as (_ & Hwithin' & Hwhole' & _).
    split; [exact Hwithin'|exact Hwhole'].
Defined.

(** C3 as stated fails: [createTeam] stores a negative [maximumMembers] as
    given, so the team it creates has one member and a capacity below one. *)
Lemma negative_capacity_breaks_bound :
  withinCapacity emptyStore
  ∧ (∃ td,
       teamCol (snd (perform sampleEnv (createTeam (createRequest "bob" (Some (-1)%Q)))
                       emptyStore)) !! "T1" = Some td
       ∧ members td = Some ["bob"] ∧ maximumMembers td = Some (-1)%Q
       ∧ (-1 < inject_Z (Z.of_nat (length ["bob"])))%Q)
  ∧ ¬ withinCapacity
        (snd (perform sampleEnv (createTeam (createRequest "bob" (Some (-1)%Q)))
                emptyStore)).
Proof.
  split; [apply capacity_empty|].
  assert (teamCol (snd (perform sampleEnv (createTeam (createRequest "bob" (Some (-1)%Q)))
                          emptyStore)) !! "T1"
          = Some (mkTeamDoc (Some "bob") (Some "s3cretPassw0rd") (Some (-1)%Q)
                    (Some ["bob"]) (Some 1000000000000))) as Hnew
    by (vm_compute; reflexivity).
  split.
  - eexists. split; [exact Hnew|]. by repeat split.
  - intros Hinv. specialize (Hinv _ _ Hnew). by vm_compute in Hinv.
Qed.

(** The capacity has to be whole: [createTeam] stores a [maximumMembers] of
    one and a half as given, and [joinTeam] then admits a second member,
    since one is less than one and a half. *)
Example fractional_capacity_breaks_bound :
  let created :=
    snd (perform sampleEnv (createTeam (createRequest "owner" (Some (3 # 2)%Q)))
           emptyStore) in
  let joined :=
    snd (perform sampleEnv (joinTeam (joinRequest "member" "T1" "s3cretPassw0rd"))
           created) in
  teamCol joined !! "T1"
  = Some (mkTeamDoc (Some "owner") (Some "s3cretPassw0rd") (Some (3 # 2)%Q)
            (Some ["owner"; "member"]) (Some 1000000000000))
  ∧ ¬ withinCapacity joined.
Proof.
  intros created joined.
  assert (teamCol joined !! "T1"
          = Some (mkTeamDoc (Some "owner") (Some "s3cretPassw0rd") (Some (3 # 2)%Q)
                    (Some ["owner"; "member"]) (Some 1000000000000))) as Hnew
    by (vm_compute; reflexivity).
  split; [exact Hnew|].
  intros Hinv. specialize (Hinv _ _ Hnew). by vm_compute in Hinv.
Qed.

Lemma teamOf_given o tid : teamOf o = Some tid → tid ≠ "".
Proof.
  unfold teamOf, truthy. destruct o as [d|]; [|done].
  destruct (team d) as [| |id0]; try done.
  destruct (decide (id0 = "")); [done|]. by intros [= <-].
Qed.

(** C4: when the caller's membership names a team and the caller is that
    team's owner, [leaveTeam] returns [{left: true}]; in the store it leaves,
    every user on the roster (the caller too, when listed) has a membership
    with [team = null] and [lastLeftTeam] set to the commit time, the team
    document is gone, nobody else's membership and no other team changed, and
    a later join by the old id fails: it is answered [not-found], the id
    being a document id as the id of every stored team is. *)
Theorem owner_leave_disbands env uid s tid td :
  teamOf (systemCol s !! uid) = Some tid →
  teamCol s !! tid = Some td →
  owner td = Some uid →
  let roster := default [] (members td) in
  let result := _leaveTeamLogic env (mkRequest (Some uid) tt) s in
  fst result = inr (Left true)
  ∧ teamCol (snd result) !! tid = None
  ∧ (∀ m, m ∈ roster →
       ∃ d', systemCol (snd result) !! m = Some d'
             ∧ team d' = TeamNull ∧ lastLeftTeam d' = Some (serverTime env))
  ∧ (uid ∈ roster → teamOf (systemCol (snd result) !! uid) = None)
  ∧ (∀ x, x ∉ roster → systemCol (snd result) !! x = systemCol s !! x)
  ∧ (∀ tid', tid' ≠ tid → teamCol (snd result) !! tid' = teamCol s !! tid')
  ∧ (∀ env' joiner pw,
       teamOf (systemCol (snd result) !! joiner) = None → pw ≠ "" →
       ∃ e,
         _joinTeamLogic env' (mkRequest (Some joiner) (JoinTeamData.mk (Some tid) (Some pw)))
           (snd result)
         = (inl e, snd result)
         ∧ (validDocumentPath tid = true →
            e = mkHttpsError not_found "Team doesn't exist" None)).
Proof.
  intros Hteam Htd Hown roster result. subst result.
  rewrite leaveTeam_tree, Hteam, Htd. simpl.
  rewrite decide_True by done. simpl. fold roster.
  set (s' := commit (serverTime env) (disbandWrites tid roster) s).
  assert (Hsys : ∀ x, systemCol s' !! x =
            if decide (x ∈ roster)
            then Some (mergeSystem (systemCol s !! x) TeamNull (Some (serverTime env)))
            else systemCol s !! x).
  { intros x. subst s'. unfold disbandWrites. rewrite commit_app.
    change (commit ?t [DeleteTeam tid] ?s0) with (applyWrite t s0 (DeleteTeam tid)).
    simpl. apply commit_reset_system. }
  assert (Hteams : teamCol s' = delete tid (teamCol s)).
  { subst s'. unfold disbandWrites. rewrite commit_app.
    change (commit ?t [DeleteTeam tid] ?s0) with (applyWrite t s0 (DeleteTeam tid)).
    simpl. by rewrite commit_reset_team. }
  assert (Hgone : teamCol s' !! tid = None) by (rewrite Hteams; apply lookup_delete_eq).
  repeat split.
  - done.
  - intros m Hm. rewrite Hsys, decide_True by done. by eexists.
  - intros Hin. by rewrite Hsys, decide_True by done.
  - intros x Hx. by rewrite Hsys, decide_False by done.
  - intros tid' Hne. rewrite Hteams. by apply lookup_delete_ne.
  - intros env' joiner pw Hfree Hpw.
    destruct (validDocumentPath tid) eqn:Hvalid.
    + eexists. split; [|done]. by eapply join_not_found.
    + destruct (join_invalid_path env' joiner (JoinTeamData.mk (Some tid) (Some pw)) s'
                  tid pw Hfree eq_refl eq_refl) as [reason Hrun]; [|done..|].
      * by eapply teamOf_given.
      * eexists. split; [exact Hrun|done].
Qed.

Lemma owner_leave_disbands_witness :
  fst (_leaveTeamLogic sampleEnv (asUser "owner" tt) fullStore) = inr (Left true)
  ∧ teamCol (snd (_leaveTeamLogic sampleEnv (asUser "owner" tt) fullStore)) !! "T1" = None
  ∧ teamOf (systemCol (snd (_leaveTeamLogic sampleEnv (asUser "owner" tt) fullStore))
              !! "member") = None.
Proof.
  pose proof (owner_leave_disbands sampleEnv "owner" fullStore "T1"
                (mkTeamDoc (Some "owner") (Some "s3cretPassw0rd") (Some 2%Q)
                   (Some ["owner"; "member"]) (Some 1000000000000))
                ltac:(vm_compute; reflexivity) ltac:(vm_compute; reflexivity)
                ltac:(reflexivity)) as H.
  simpl in H. destruct H as (Hres & Hgone & Hreset & _).
  split; [exact Hres|]. split; [exact Hgone|].
  destruct (Hreset "member") as (d' & Hd' & Hnull & _).
  - apply elem_of_cons. right. by apply list_elem_of_singleton.
  - unfold asUser. rewrite Hd'. unfold teamOf. by rewrite Hnull.
Defined.




(** C6, as the code has it: a successful [createTeam] stores the team
    document [{owner: caller, password, maximumMembers, members: [caller],
    createdAt: commit time}] under the drawn id, sets the caller's membership
    to that id, and returns [{team: id, password}] with the stored password.
    The stored [maximumMembers] is the argument when it is given and not [0],
    and [10] when it is absent or [0]; the password is the argument when it
    is given and not empty, and the result of [generateSecurePassword]
    otherwise. *)
Theorem createTeam_stores_team env request s r s' :
  _createTeamLogic env request s = (inr r, s') →
  ∃ uid tid pw stored d',
    auth request = Some uid
    ∧ teamIdGen env = generatorReturns tid
    ∧ r = Created tid pw
    ∧ teamCol s' !! tid
      = Some (mkTeamDoc (Some uid) (Some pw) (Some stored) (Some [uid])
                (Some (serverTime env)))
    ∧ systemCol s' !! uid = Some d' ∧ team d' = TeamStr tid
    ∧ (∀ n, CreateTeamData.maximumMembers (data request) = Some n → ¬ (n == 0)%Q →
            stored = n)
    ∧ (CreateTeamData.maximumMembers (data request) = None
       ∨ (∃ n, CreateTeamData.maximumMembers (data request) = Some n ∧ (n == 0)%Q) →
       stored = 10%Q)
    ∧ (∀ p, CreateTeamData.password (data request) = Some p → p ≠ "" → pw = p)
    ∧ (CreateTeamData.password (data request) = None
       ∨ CreateTeamData.password (data request) = Some "" →
       pw = generateSecurePassword (passGen env)).
Proof.
  intros Hrun.
  apply createTeam_success in Hrun as (uid & tid & Hauth & _ & _ & Hgen & -> & ->).
  eexists uid, tid, _, _, _. simpl.
  rewrite !lookup_insert_eq. repeat split; try done.
  - intros n -> Hn. simpl. destruct (Qeq_bool n 0) eqn:Hzero; [|done].
    by apply Qeq_bool_iff in Hzero.
  - intros [-> | (n & -> & Hzero)]; [done|]. simpl.
    by rewrite (proj2 (Qeq_bool_iff _ _) Hzero).
  - intros p -> Hp. simpl. unfold truthy. by rewrite decide_False by done.
  - by intros [-> | ->].
Qed.

Lemma createTeam_stores_team_witness :
  ∃ d', teamCol ownerStore !! "T1"
        = Some (mkTeamDoc (Some "owner") (Some "s3cretPassw0rd") (Some 2%Q) (Some ["owner"])
                  (Some 1000000000000))
        ∧ systemCol ownerStore !! "owner" = Some d' ∧ team d' = TeamStr "T1".
Proof.
  destruct (createTeam_stores_team sampleEnv (createRequest "owner" (Some 2%Q)) emptyStore
              (Created "T1" "s3cretPassw0rd") ownerStore ltac:(vm_compute; reflexivity))
    as (uid & tid & pw & stored & d' & Hauth & Hgen & Hr & Hteam & Hsys & Hd' & Hmax & _).
  injection Hauth as <-. injection Hgen as <-. injection Hr as <-.
  rewrite (Hmax 2%Q eq_refl ltac:(discriminate)) in Hteam.
  exists d'. split; [exact Hteam|]. split; [exact Hsys|exact Hd'].
Defined.

(** C6 as stated fails: a [maximumMembers] argument of [0] is not stored as
    given (which is what [maximumMembers ?? 10] would do); the team gets
    [10]. *)
Lemma zero_capacity_is_replaced :
  fst (_createTeamLogic sampleEnv (createRequest "owner" (Some 0%Q)) emptyStore)
    = inr (Created "T1" "s3cretPassw0rd")
  ∧ (teamCol (snd (_createTeamLogic sampleEnv (createRequest "owner" (Some 0%Q)) emptyStore))
       !! "T1") ≫= maximumMembers
    ≠ Some (default 10%Q (CreateTeamData.maximumMembers
                            (data (createRequest "owner" (Some 0%Q))))).
Proof. split; [vm_compute; reflexivity|]. vm_compute. discriminate. Qed.

(** C7: a caller on no team whose [lastLeftTeam] is less than five minutes
    before the current time gets [failed-precondition] from [createTeam] and
    the store is untouched; once more than five minutes have passed since
    [lastLeftTeam], the same request on that store succeeds (the id generator
    returning) and the team is stored. *)
Theorem createTeam_cooldown early late uid data s d last :
  systemCol s !! uid = Some d →
  teamOf (Some d) = None →
  lastLeftTeam d = Some last →
  (Timestamp.now (dateNow early) - cooldown < last ≤ Timestamp.now (dateNow early) →
   _createTeamLogic early (mkRequest (Some uid) data) s
   = (inl (mkHttpsError failed_precondition
             "You must wait 5 minutes after leaving a team to create a new one." None), s))
  ∧ (cooldown < Timestamp.now (dateNow late) - last →
     ∀ tid, teamIdGen late = generatorReturns tid →
     ∃ pw s', _createTeamLogic late (mkRequest (Some uid) data) s = (inr (Created tid pw), s')
              ∧ (teamCol s' !! tid) ≫= owner = Some uid
              ∧ team <$> (systemCol s' !! uid) = Some (TeamStr tid)).
Proof.
  intros Hd Hfree Hlast. split.
  - intros [Hlo _]. rewrite createTeam_tree, Hd, Hfree.
    unfold cooling. simpl. rewrite Hlast.
    unfold Timestamp.gt. rewrite fiveMinutesAgo_eq.
    by rewrite (proj2 (Z.ltb_lt _ _)) by lia.
  - intros Hlate tid Hgen. rewrite createTeam_tree, Hd, Hfree, Hgen.
    unfold cooling. simpl. rewrite Hlast.
    unfold Timestamp.gt. rewrite fiveMinutesAgo_eq.
    rewrite (proj2 (Z.ltb_ge _ _)) by lia.
    eexists _, _. split; [done|]. simpl. by rewrite !lookup_insert_eq.
Qed.

(** "alice" left a team at 1000 s. *)
Definition cooledStore : Store :=
  mkStore {[ "alice" := mkSystemDoc TeamNull None (Some 1000000000000) ]} ∅.

Lemma createTeam_cooldown_witness :
  _createTeamLogic (mkEnv 1299999 0 (generatorReturns "T2") (generatorThrows "rng"))
    (createRequest "alice" None) cooledStore
  = (inl (mkHttpsError failed_precondition
            "You must wait 5 minutes after leaving a team to create a new one." None),
     cooledStore)
  ∧ ∃ pw s',
      _createTeamLogic (mkEnv 1300001 0 (generatorReturns "T2") (generatorThrows "rng"))
        (createRequest "alice" None) cooledStore
      = (inr (Created "T2" pw), s').
Proof.
  destruct (createTeam_cooldown
              (mkEnv 1299999 0 (generatorReturns "T2") (generatorThrows "rng"))
              (mkEnv 1300001 0 (generatorReturns "T2") (generatorThrows "rng"))
              "alice" (CreateTeamData.mk None None) cooledStore
              (mkSystemDoc TeamNull None (Some 1000000000000)) 1000000000000
              ltac:(reflexivity) ltac:(reflexivity) ltac:(reflexivity)) as [Hearly Hlate].
  split.
  - apply Hearly. vm_compute. split; [reflexivity|discriminate].
  - destruct (Hlate ltac:(reflexivity) "T2" eq_refl) as (pw & s' & Hrun & _).
    exists pw, s'. exact Hrun.
Defined.

(** C8: a successful [kickTeamMember] was called by the owner of the
    caller's team for somebody else on its roster; afterwards the team
    document still exists with the same owner, password and capacity, its
    roster is the old one without the kicked user (everyone else stays, even
    if only the owner is left), the kicked user's membership has
    [team = null] and [lastLeftTeam] at the commit time, and the caller's own
    membership document is the one from before. *)
Theorem kick_removes_only_the_kicked env request s r s' :
  _kickTeamMemberLogic env request s = (inr r, s') →
  ∃ uid kicked tid td ms td' ms' d',
    auth request = Some uid
    ∧ KickTeamMemberData.kicked (data request) = Some kicked
    ∧ kicked ≠ uid
    ∧ teamOf (systemCol s !! uid) = Some tid
    ∧ teamCol s !! tid = Some td ∧ owner td = Some uid
    ∧ members td = Some ms ∧ kicked ∈ ms
    ∧ r = Kicked true
    ∧ teamCol s' !! tid = Some td'
    ∧ owner td' = Some uid ∧ password td' = password td
    ∧ maximumMembers td' = maximumMembers td
    ∧ members td' = Some ms'
    ∧ (kicked ∉ ms') ∧ (∀ x, x ≠ kicked → (x ∈ ms' ↔ x ∈ ms))
    ∧ systemCol s' !! kicked = Some d'
    ∧ team d' = TeamNull ∧ lastLeftTeam d' = Some (serverTime env)
    ∧ systemCol s' !! uid = systemCol s !! uid
    ∧ (∀ tid', tid' ≠ tid → teamCol s' !! tid' = teamCol s !! tid').
Proof.
  intros Hrun.
  apply kickTeamMember_success in Hrun
    as (uid & kicked & tid & Hauth & Hk & Hgiven & Hne & Hteam & Hown & Hin & -> & ->).
  destruct (teamCol s !! tid) as [td|] eqn:Htd; [|done]. simpl in Hown, Hin.
  destruct (members td) as [ms|] eqn:Hms; [|by apply elem_of_nil in Hin].
  simpl in Hin.
  exists uid, kicked, tid, td, ms. eexists _, _, _. simpl.
  rewrite !lookup_insert_eq. rewrite lookup_insert_ne by done.
  rewrite Htd. simpl. rewrite Hms. simpl.
  repeat split; try done.
  - unfold applyTransform. simpl. rewrite Hms. simpl.
    by intros [? _]%list_elem_of_filter.
  - unfold applyTransform. simpl. rewrite Hms. simpl.
    by intros [_ ?]%list_elem_of_filter.
  - unfold applyTransform. simpl. rewrite Hms. simpl.
    intros ?. by apply list_elem_of_filter.
  - intros tid' Hne'. by rewrite lookup_insert_ne.
Qed.

Lemma kick_removes_only_the_kicked_witness :
  ∃ td' d',
    teamCol (snd (_kickTeamMemberLogic sampleEnv (kickRequest "owner" "member") fullStore))
      !! "T1" = Some td'
    ∧ owner td' = Some "owner"
    ∧ systemCol (snd (_kickTeamMemberLogic sampleEnv (kickRequest "owner" "member")
                        fullStore)) !! "member" = Some d'
    ∧ team d' = TeamNull.
Proof.
  destruct (kick_removes_only_the_kicked sampleEnv (kickRequest "owner" "member") fullStore
              (Kicked true)
              (snd (_kickTeamMemberLogic sampleEnv (kickRequest "owner" "member") fullStore))
              ltac:(vm_compute; reflexivity))
    as (uid & kicked & tid & td & ms & td' & ms' & d' & Hauth & Hk & _ & Hteam & _ & _ & _
        & _ & _ & Htd' & Hown & _ & _ & _ & _ & _ & Hd' & Hnull & _).
  injection Hauth as <-. injection Hk as <-.
  assert (tid = "T1") as -> by (vm_compute in Hteam; congruence).
  exists td', d'. split; [exact Htd'|]. split; [exact Hown|]. split; [exact Hd'|exact Hnull].
Defined.

Lemma passwordLength_nine : passwordLength = 9%nat.
Proof. reflexivity. Qed.

Lemma generated_kept g :
  (4 ≤ String.length g)%nat → generateSecurePassword (generatorReturns (Some g)) = g.
Proof.
  intros Hlen. unfold generateSecurePassword, truthy.
  destruct (decide (g = "")) as [->|_]; [simpl in Hlen; lia|].
  by rewrite (proj2 (Nat.leb_le _ _)) by done.
Qed.

Lemma generated_too_short g :
  (String.length g < 4)%nat →
  generateSecurePassword (generatorReturns (Some g)) = "DEBUG_PASS_123".
Proof.
  intros Hlen. unfold generateSecurePassword.
  rewrite (proj2 (Nat.leb_gt _ _)) by done. by rewrite andb_false_r.
Qed.

(** C9: when [createTeam] succeeds for a caller who supplied no password
    (absent or empty), the password comes from the generator, and a fixed
    sentinel takes its place only if generation throws.  With the generator
    the code uses (it returns nine characters or fails): whenever it returns
    a value, the password stored on the team and returned to the caller is
    that value and is neither sentinel; and a password that is a sentinel is
    ['ERROR_PASS_456'], generation having thrown. *)
Theorem createTeam_keeps_generated_password env request s r s' :
  asLibraryGenerates (passGen env) →
  _createTeamLogic env request s = (inr r, s') →
  CreateTeamData.password (data request) = None
  ∨ CreateTeamData.password (data request) = Some "" →
  ∃ tid pw,
    r = Created tid pw
    ∧ (teamCol s' !! tid) ≫= password = Some pw
    ∧ (∀ generated, passGen env = generatorReturns generated →
         generated = Some pw ∧ pw ≠ "DEBUG_PASS_123" ∧ pw ≠ "ERROR_PASS_456")
    ∧ (pw = "DEBUG_PASS_123" ∨ pw = "ERROR_PASS_456" →
       pw = "ERROR_PASS_456" ∧ ∃ msg, passGen env = generatorThrows msg).
Proof.
  intros Hlibrary Hrun Hnone.
  apply createTeam_success in Hrun as (uid & tid & _ & _ & _ & _ & -> & ->).
  assert (orElse (CreateTeamData.password (data request))
            (generateSecurePassword (passGen env))
          = generateSecurePassword (passGen env)) as -> by (by destruct Hnone as [-> | ->]).
  eexists _, _. split; [done|]. simpl. rewrite lookup_insert_eq.
  split; [done|].
  destruct (passGen env) as [msg|[generated|]]; simpl in Hlibrary; [| |done].
  - split; [done|]. intros _. split; [done|]. by eexists.
  - rewrite passwordLength_nine in Hlibrary.
    assert (generateSecurePassword (generatorReturns (Some generated)) = generated) as ->.
    { apply generated_kept. rewrite Hlibrary. lia. }
    assert (generated ≠ "DEBUG_PASS_123" ∧ generated ≠ "ERROR_PASS_456") as [Hdebug Herror].
    { split; intros ->; discriminate Hlibrary. }
    clear Hlibrary. split.
    + intros ? [= <-]. split; [reflexivity|]. split; assumption.
    + intros [?|?]; contradiction.
Qed.

Lemma createTeam_keeps_generated_password_witness :
  ∃ s', _createTeamLogic
          (mkEnv 0 0 (generatorReturns "T1") (generatorReturns (Some "q7Xk2mPz9")))
          (createRequest "owner" None) emptyStore
        = (inr (Created "T1" "q7Xk2mPz9"), s')
        ∧ (teamCol s' !! "T1") ≫= password = Some "q7Xk2mPz9".
Proof.
  destruct (createTeam_keeps_generated_password
              (mkEnv 0 0 (generatorReturns "T1") (generatorReturns (Some "q7Xk2mPz9")))
              (createRequest "owner" None) emptyStore (Created "T1" "q7Xk2mPz9")
              (snd (_createTeamLogic
                      (mkEnv 0 0 (generatorReturns "T1")
                         (generatorReturns (Some "q7Xk2mPz9")))
                      (createRequest "owner" None) emptyStore))
              ltac:(reflexivity) ltac:(vm_compute; reflexivity) ltac:(left; reflexivity))
    as (tid & pw & Hr & Hstored & _).
  injection Hr as <- <-.
  eexists. split; [vm_compute; reflexivity|exact Hstored].
Defined.

(** C10: [generateSecurePassword] always returns a string: the generated one when
    it is non-empty and at least four characters long, ['DEBUG_PASS_123']
    when the generator returns nothing or fewer than four characters,
    ['ERROR_PASS_456'] when the generator throws.  So the outcome of
    [createTeam] never depends on the password generator failing: with any
    two password generators the call fails or succeeds alike, with the same
    error, and an [internal] error can only come from the id generator. *)
Theorem generateSecurePassword_total :
  (∀ g, g ≠ "" → (4 ≤ String.length g)%nat →
        generateSecurePassword (generatorReturns (Some g)) = g)
  ∧ (∀ g, (String.length g < 4)%nat →
          generateSecurePassword (generatorReturns (Some g)) = "DEBUG_PASS_123")
  ∧ generateSecurePassword (generatorReturns None) = "DEBUG_PASS_123"
  ∧ (∀ msg, generateSecurePassword (generatorThrows msg) = "ERROR_PASS_456")
  ∧ (∀ now stamp idGen pwGen1 pwGen2 request s e,
       fst (_createTeamLogic (mkEnv now stamp idGen pwGen1) request s) = inl e →
       fst (_createTeamLogic (mkEnv now stamp idGen pwGen2) request s) = inl e)
  ∧ (∀ env request s e,
       fst (_createTeamLogic env request s) = inl e → code e = internal →
       ∃ msg, teamIdGen env = generatorThrows msg).
Proof.
  split; [|split; [|split; [|split; [|split]]]].
  - intros g _ Hlen. by apply generated_kept.
  - apply generated_too_short.
  - done.
  - done.
  - intros now stamp idGen pwGen1 pwGen2 [[uid|] d] s e; [|done].
    rewrite !createTeam_tree. simpl.
    destruct (teamOf (systemCol s !! uid)); [done|].
    unfold cooling, fiveMinutesAgo. simpl.
    destruct (match (systemCol s !! uid) ≫= lastLeftTeam with
              | Some last => _ | None => false end); [done|].
    by destruct idGen.
  - intros env [[uid|] d] s e; [|by intros [= <-]].
    rewrite createTeam_tree.
    destruct (teamOf (systemCol s !! uid)); [by intros [= <-]|].
    destruct (cooling env (systemCol s !! uid)); [by intros [= <-]|].
    destruct (teamIdGen env) as [msg|tid]; [eauto|done].
Qed.

(** ** The scenario of the specification, run on the model *)

(** At exactly five minutes the test [lastLeftTeam > fiveMinutesAgo] is
    false and [createTeam] goes ahead. *)
Example cooldown_boundary :
  fst (_createTeamLogic (mkEnv 1300000 0 (generatorReturns "T2") (generatorThrows "rng"))
         (createRequest "alice" None) cooledStore)
  = inr (Created "T2" "ERROR_PASS_456").
Proof. vm_compute. reflexivity. Qed.

Example scenario_roster_after_join :
  (teamCol fullStore !! "T1") ≫= members = Some ["owner"; "member"].
Proof. vm_compute. reflexivity. Qed.

Example scenario_third_user_rejected :
  code <$> (match fst (perform sampleEnv
                         (joinTeam (joinRequest "third" "T1" "s3cretPassw0rd")) fullStore)
            with inl e => Some e | inr _ => None end)
  = Some resource_exhausted.
Proof. vm_compute. reflexivity. Qed.

Example scenario_kick_then_leave :
  let kickedStore := snd (perform sampleEnv (kickTeamMember (kickRequest "owner" "member"))
                            fullStore) in
  let finalStore := snd (perform sampleEnv (leaveTeam (asUser "owner" tt)) kickedStore) in
  (teamCol kickedStore !! "T1") ≫= members = Some ["owner"]
  ∧ team <$> (systemCol kickedStore !! "member") = Some TeamNull
  ∧ teamCol finalStore !! "T1" = None
  ∧ team <$> (systemCol finalStore !! "owner") = Some TeamNull.
Proof. vm_compute. repeat split. Qed.

(** * Further properties of the team operations *)

(** ** A case rule for [perform]

    A property of the store survives a call if it survives each of the five
    write sets a call can commit, under what the call checked first. *)
Lemma perform_cases (P : Store → Prop) env op s :
  P s →
  (∀ request uid tid,
     op = createTeam request → auth request = Some uid →
     teamOf (systemCol s !! uid) = None →
     teamIdGen env = generatorReturns tid →
     P (commit (serverTime env)
          (createWrites uid tid
             (orElse (CreateTeamData.password (data request))
                (generateSecurePassword (passGen env)))
             (orElseNumber (CreateTeamData.maximumMembers (data request)) 10)) s)) →
  (∀ uid tid td,
     teamOf (systemCol s !! uid) = None → tid ≠ "" →
     teamCol s !! tid = Some td →
     (inject_Z (membersLength (Some td)) < capacity (Some td))%Q →
     P (commit (serverTime env) (joinWrites uid tid) s)) →
  (∀ uid tid,
     teamOf (systemCol s !! uid) = Some tid →
     (teamCol s !! tid) ≫= owner = Some uid →
     P (commit (serverTime env)
          (disbandWrites tid (default [] ((teamCol s !! tid) ≫= members))) s)) →
  (∀ uid tid,
     teamOf (systemCol s !! uid) = Some tid →
     (teamCol s !! tid) ≫= owner ≠ Some uid →
     P (commit (serverTime env) (departWrites uid tid) s)) →
  (∀ uid kicked tid,
     kicked ≠ uid →
     teamOf (systemCol s !! uid) = Some tid →
     (teamCol s !! tid) ≫= owner = Some uid →
     kicked ∈ default [] ((teamCol s !! tid) ≫= members) →
     P (commit (serverTime env) (departWrites kicked tid) s)) →
  P (snd (perform env op s)).
Proof.
  intros Hs Hcreate Hjoin Hdisband Hleave Hkick.
  destruct (perform env op s) as [[e|r] s'] eqn:Hrun; simpl.
  - by rewrite (perform_failure _ _ _ _ _ Hrun).
  - destruct op as [request|request|request|request]; simpl in Hrun.
    + apply createTeam_success in Hrun as (uid & tid & ? & ? & _ & ? & _ & ->).
      by eapply Hcreate.
    + apply joinTeam_success in Hrun
        as (uid & tid & pw & td & _ & ? & _ & ? & _ & _ & ? & _ & ? & _ & ->).
      by eapply Hjoin.
    + apply leaveTeam_success in Hrun as (uid & tid & _ & ? & _ & [[? ->]|[? ->]]).
      * by eapply Hdisband.
      * by eapply Hleave.
    + apply kickTeamMember_success in Hrun
        as (uid & kicked & tid & _ & _ & _ & ? & ? & ? & ? & _ & ->).
      by eapply Hkick.
Qed.

Lemma teamCol_disband t tid ms s :
  teamCol (commit t (disbandWrites tid ms) s) = delete tid (teamCol s).
Proof.
  unfold disbandWrites. rewrite commit_app.
  change (commit t [DeleteTeam tid] ?s0) with (applyWrite t s0 (DeleteTeam tid)).
  simpl. by rewrite commit_reset_team.
Qed.

Lemma systemCol_disband t tid ms s uid :
  systemCol (commit t (disbandWrites tid ms) s) !! uid =
    if decide (uid ∈ ms)
    then Some (mergeSystem (systemCol s !! uid) TeamNull (Some t))
    else systemCol s !! uid.
Proof.
  unfold disbandWrites. rewrite commit_app.
  change (commit t [DeleteTeam tid] ?s0) with (applyWrite t s0 (DeleteTeam tid)).
  simpl. apply commit_reset_system.
Qed.

(** ** The owner stays on the roster *)

Definition ownerListed (s : Store) : Prop :=
  ∀ tid td o, teamCol s !! tid = Some td → owner td = Some o →
    o ∈ default [] (members td).

Lemma ownerListed_merge s tid tr :
  ownerListed s →
  (∀ td o, teamCol s !! tid = Some td → owner td = Some o →
           o ∈ default [] (members td) → o ∈ applyTransform tr (members td)) →
  ∀ sys, ownerListed (mkStore sys (<[tid := mergeTeamMembers (teamCol s !! tid) tr]> (teamCol s))).
Proof.
  intros Hinv Hkeep sys tid' td' o. simpl.
  destruct (decide (tid' = tid)) as [->|Hne].
  - rewrite lookup_insert_eq. intros [= <-]. simpl.
    destruct (teamCol s !! tid) as [td|] eqn:Htd; [|done]. simpl.
    intros Ho. apply (Hkeep td o); [done..|]. by eapply Hinv.
  - rewrite lookup_insert_ne by done. apply Hinv.
Qed.

(** ** Rosters hold no user twice *)

Definition rostersNoDup (s : Store) : Prop :=
  ∀ tid td ms, teamCol s !! tid = Some td → members td = Some ms → NoDup ms.

Lemma NoDup_applyTransform tr o :
  NoDup (default [] o) → NoDup (applyTransform tr o).
Proof.
  intros Hnd. unfold applyTransform. destruct tr as [uid|uid].
  - case_decide as Hin; [done|].
    apply NoDup_app. split; [done|]. split; [|apply NoDup_singleton].
    intros x Hx ->%list_elem_of_singleton. contradiction.
  - by apply NoDup_filter.
Qed.

Lemma rostersNoDup_merge s tid tr sys :
  rostersNoDup s →
  rostersNoDup (mkStore sys (<[tid := mergeTeamMembers (teamCol s !! tid) tr]> (teamCol s))).
Proof.
  intros Hinv tid' td' ms'. simpl.
  destruct (decide (tid' = tid)) as [->|Hne].
  - rewrite lookup_insert_eq. intros [= <-]. simpl. intros [= <-].
    apply NoDup_applyTransform.
    destruct (teamCol s !! tid) as [td|] eqn:Htd; simpl; [|apply NoDup_nil_2].
    destruct (members td) as [ms|] eqn:Hms; simpl; [|apply NoDup_nil_2].
    by eapply Hinv.
  - rewrite lookup_insert_ne by done. apply Hinv.
Qed.

Lemma ownerListed_perform env op s :
  ownerListed s → ownerListed (snd (perform env op s)).
Proof.
  intros Hown.
  apply perform_cases; try done.
  - intros request uid tid _ _ _ _ tid' td' o. simpl.
    destruct (decide (tid' = tid)) as [->|Hne].
    + rewrite lookup_insert_eq. intros [= <-] [= <-]. simpl.
      by apply list_elem_of_singleton.
    + rewrite lookup_insert_ne by done. apply Hown.
  - intros uid tid td _ _ Htd _. apply ownerListed_merge; [done|].
    intros td0 o _ _ Hin. destruct (members td0) as [ms|]; [|by apply elem_of_nil in Hin].
    by apply elem_of_arrayUnion_old.
  - intros uid tid _ _ tid' td' o. rewrite teamCol_disband.
    intros [_ Htd]%lookup_delete_Some. by eapply Hown.
  - intros uid tid _ Hother. apply ownerListed_merge; [done|].
    intros td0 o Htd Ho Hin. rewrite Htd in Hother. simpl in Hother.
    destruct (members td0) as [ms|]; [|by apply elem_of_nil in Hin].
    apply elem_of_arrayRemove; [congruence|done].
  - intros uid kicked tid Hne _ Howner _. apply ownerListed_merge; [done|].
    intros td0 o Htd Ho Hin. rewrite Htd in Howner. simpl in Howner.
    destruct (members td0) as [ms|]; [|by apply elem_of_nil in Hin].
    apply elem_of_arrayRemove; [congruence|done].
Qed.

Lemma rostersNoDup_perform env op s :
  rostersNoDup s → rostersNoDup (snd (perform env op s)).
Proof.
  intros Hnd.
  apply perform_cases; try done.
  - intros request uid tid _ _ _ _ tid' td' ms'. simpl.
    destruct (decide (tid' = tid)) as [->|Hne].
    + rewrite lookup_insert_eq. intros [= <-] [= <-]. apply NoDup_singleton.
    + rewrite lookup_insert_ne by done. apply Hnd.
  - intros. by apply rostersNoDup_merge.
  - intros uid tid _ _ tid' td' ms'. rewrite teamCol_disband.
    intros [_ Htd]%lookup_delete_Some. by eapply Hnd.
  - intros. by apply rostersNoDup_merge.
  - intros. by apply rostersNoDup_merge.
Qed.

(** X1: whatever the store and the call, after any of the four operations
    every team's owner is on its roster if that held before, and no roster
    lists a user twice if none did before. *)
Theorem rosters_stay_well_formed env op s :
  ownerListed s → rostersNoDup s →
  ownerListed (snd (perform env op s)) ∧ rostersNoDup (snd (perform env op s)).
Proof.
  intros Hown Hnd. split; [by apply ownerListed_perform|by apply rostersNoDup_perform].
Qed.

(** ** What join, leave and kick never touch *)

(** X2: as long as a team document exists, its owner, password, capacity
    and creation time are the ones it was created with: no operation changes
    them (for [createTeam], given that the drawn id is unused). *)
Theorem team_fields_never_change env op s tid td td' :
  idIsFresh env op s →
  teamCol s !! tid = Some td →
  teamCol (snd (perform env op s)) !! tid = Some td' →
  owner td' = owner td ∧ password td' = password td
  ∧ maximumMembers td' = maximumMembers td ∧ createdAt td' = createdAt td.
Proof.
  intros Hfresh Htd. revert td'.
  apply (perform_cases
           (λ s', ∀ td', teamCol s' !! tid = Some td' →
                         owner td' = owner td ∧ password td' = password td
                         ∧ maximumMembers td' = maximumMembers td
                         ∧ createdAt td' = createdAt td)).
  - intros td'. rewrite Htd. by intros [= <-].
  - intros request uid tid0 -> _ _ Hgen td'. simpl.
    rewrite lookup_insert_ne; [rewrite Htd; by intros [= <-]|].
    intros ->. specialize (Hfresh _ Hgen). congruence.
  - intros uid tid0 td0 _ _ Htd0 _ td'. simpl.
    destruct (decide (tid = tid0)) as [->|Hne].
    + rewrite lookup_insert_eq, Htd. by intros [= <-].
    + rewrite lookup_insert_ne by done. rewrite Htd. by intros [= <-].
  - intros uid tid0 _ _ td'. rewrite teamCol_disband.
    intros [_ Htd']%lookup_delete_Some. rewrite Htd in Htd'. by injection Htd' as <-.
  - intros uid tid0 _ _ td'. simpl.
    destruct (decide (tid = tid0)) as [->|Hne].
    + rewrite lookup_insert_eq, Htd. by intros [= <-].
    + rewrite lookup_insert_ne by done. rewrite Htd. by intros [= <-].
  - intros uid kicked tid0 _ _ _ _ td'. simpl.
    destruct (decide (tid = tid0)) as [->|Hne].
    + rewrite lookup_insert_eq, Htd. by intros [= <-].
    + rewrite lookup_insert_ne by done. rewrite Htd. by intros [= <-].
Qed.

(** ** Rosters and memberships agree in both directions *)

(** No team is stored under the empty id, and whoever is on a roster has a
    membership naming that team. *)
Definition rosterConsistent (s : Store) : Prop :=
  teamCol s !! "" = None
  ∧ ∀ tid td ms uid,
      teamCol s !! tid = Some td → members td = Some ms → uid ∈ ms →
      ∃ d, systemCol s !! uid = Some d ∧ team d = TeamStr tid.


Lemma teamOf_names d tid : teamOf (Some d) = Some tid → team d = TeamStr tid.
Proof.
  unfold teamOf. destruct (team d) as [| |id0]; try done.
  destruct (truthy id0); [|done]. by intros [= <-].
Qed.











(** ** Sequences of calls *)



Definition wellFormed (s : Store) : Prop :=
  membershipConsistent s ∧ rosterConsistent s
  ∧ (withinCapacity s ∧ wholeCapacities s)
  ∧ ownerListed s ∧ rostersNoDup s.


Lemma wellFormed_empty : wellFormed emptyStore.
Proof.
  split; [apply consistent_empty|].
  split; [|split; [split; [apply capacity_empty|apply whole_empty]|split]].
  - split; [apply lookup_empty|]. intros tid td ms uid H. simpl in H.
    by rewrite lookup_empty in H.
  - intros tid td o H. simpl in H. by rewrite lookup_empty in H.
  - intros tid td ms H. simpl in H. by rewrite lookup_empty in H.
Qed.




(** ** Leaving as an ordinary member *)

(** X5: when the caller's membership names a team owned by somebody else,
    [leaveTeam] returns [{left: true}]; the team document stays, with the
    same owner, password, capacity and creation time, and a roster that is
    the old one without the caller; the caller's membership gets
    [team = null] and [lastLeftTeam] at the commit time; no other membership
    and no other team changes. *)
Theorem member_leave_keeps_team env uid s tid td :
  teamOf (systemCol s !! uid) = Some tid →
  teamCol s !! tid = Some td →
  owner td ≠ Some uid →
  let result := _leaveTeamLogic env (mkRequest (Some uid) tt) s in
  fst result = inr (Left true)
  ∧ (∃ td' ms' d',
       teamCol (snd result) !! tid = Some td'
       ∧ owner td' = owner td ∧ password td' = password td
       ∧ maximumMembers td' = maximumMembers td ∧ createdAt td' = createdAt td
       ∧ members td' = Some ms'
       ∧ (∀ x, x ∈ ms' ↔ x ≠ uid ∧ x ∈ default [] (members td))
       ∧ systemCol (snd result) !! uid = Some d'
       ∧ team d' = TeamNull ∧ lastLeftTeam d' = Some (serverTime env))
  ∧ (∀ x, x ≠ uid → systemCol (snd result) !! x = systemCol s !! x)
  ∧ (∀ tid', tid' ≠ tid → teamCol (snd result) !! tid' = teamCol s !! tid').
Proof.
  intros Hteam Htd Hown result. subst result.
  rewrite leaveTeam_tree, Hteam, Htd. simpl.
  rewrite decide_False by done. simpl.
  split; [done|]. split; [|split].
  - eexists _, _, _. rewrite !lookup_insert_eq, Htd. simpl.
    do 6 (split; [done|]). split; [|done].
    intros x. unfold applyTransform. by rewrite list_elem_of_filter.
  - intros x Hx. by rewrite lookup_insert_ne.
  - intros tid' Hne. by rewrite lookup_insert_ne.
Qed.


(** ** The checks of [kickTeamMember] *)

(** X7: [kickTeamMember] reports the first check that fails, in this
    order: no kicked id (absent or empty) and kicking oneself,
    [invalid-argument], both before the store is read; caller on no team,
    [failed-precondition]; caller's team not owned by the caller (or
    missing), [permission-denied]; kicked user not on the roster,
    [not-found].  Each failure leaves the store as it was; otherwise the call
    returns [{kicked: true}]. *)
Theorem kickTeamMember_checks_in_order env uid data s :
  let result := _kickTeamMemberLogic env (mkRequest (Some uid) data) s in
  let failsWith c := ∃ msg, result = (inl (mkHttpsError c msg None), s) in
  (KickTeamMemberData.kicked data = None ∨ KickTeamMemberData.kicked data = Some "" →
   failsWith invalid_argument)
  ∧ (KickTeamMemberData.kicked data = Some uid → failsWith invalid_argument)
  ∧ (∀ kicked,
       KickTeamMemberData.kicked data = Some kicked → kicked ≠ "" → kicked ≠ uid →
       (teamOf (systemCol s !! uid) = None → failsWith failed_precondition)
       ∧ (∀ tid, teamOf (systemCol s !! uid) = Some tid →
            ((teamCol s !! tid) ≫= owner ≠ Some uid → failsWith permission_denied)
            ∧ ((teamCol s !! tid) ≫= owner = Some uid →
               kicked ∉ default [] ((teamCol s !! tid) ≫= members) →
               failsWith not_found)
            ∧ ((teamCol s !! tid) ≫= owner = Some uid →
               kicked ∈ default [] ((teamCol s !! tid) ≫= members) →
               fst result = inr (Kicked true)))).
Proof.
  intros result failsWith. subst result failsWith. simpl. split; [|split].
  - intros [H|H]; unfold _kickTeamMemberLogic; simpl; rewrite H; by eexists.
  - intros H. unfold _kickTeamMemberLogic, truthy. simpl. rewrite H.
    destruct (decide (uid = "")); simpl; [by eexists|].
    rewrite decide_True by done. by eexists.
  - intros kicked Hk Hgiven Hother. destruct data as [k]. simpl in Hk. subst k.
    rewrite kickTeamMember_tree by done. split.
    + intros ->. by eexists.
    + intros tid ->. split; [|split].
      * intros Hown. rewrite decide_False by done. by eexists.
      * intros Hown Hout. rewrite decide_True, decide_False by done. by eexists.
      * intros Hown Hin. by rewrite !decide_True by done.
Qed.

(** ** How the operations compose *)

(** The caller of a [createTeam] or [joinTeam] request. *)
Definition entering (op : Operation) (uid : string) : Prop :=
  match op with
  | createTeam request => auth request = Some uid
  | joinTeam request => auth request = Some uid
  | _ => False
  end.

Lemma on_team_refused env op s uid tid :
  entering op uid → teamOf (systemCol s !! uid) = Some tid →
  ∃ msg, perform env op s = (inl (mkHttpsError failed_precondition msg None), s).
Proof.
  destruct op as [[a d]|[a d]| |]; simpl; try done; intros -> Hteam.
  - rewrite createTeam_tree, Hteam. by eexists.
  - eexists. by eapply join_already_in_team.
Qed.

Lemma truthy_teamOf (sys : gmap string SystemDocData) (uid : string) old tid stamp :
  tid ≠ "" →
  teamOf (<[uid := mergeSystem old (TeamStr tid) stamp]> sys !! uid) = Some tid.
Proof.
  intros Hne. rewrite lookup_insert_eq. unfold teamOf, truthy. simpl.
  by rewrite decide_False by done.
Qed.

(** The id drawn for a new team is not empty. *)
Definition idIsGiven (env : Env) (op : Operation) : Prop :=
  match op with
  | createTeam _ => ∀ tid, teamIdGen env = generatorReturns tid → tid ≠ ""
  | _ => True
  end.

(** X8: once a user has created or joined a team (the id of a created team
    being non-empty), every further [createTeam] or [joinTeam] by that user
    fails with [failed-precondition] and changes nothing. *)
Theorem second_team_is_refused env1 env2 op1 op2 s uid r :
  entering op1 uid → entering op2 uid →
  idIsGiven env1 op1 →
  fst (perform env1 op1 s) = inr r →
  ∃ msg, perform env2 op2 (snd (perform env1 op1 s))
         = (inl (mkHttpsError failed_precondition msg None), snd (perform env1 op1 s)).
Proof.
  intros H1 H2 Hnew Hok.
  destruct (perform env1 op1 s) as [r1 s1] eqn:Hrun. simpl in *. subst r1.
  assert (∃ tid, teamOf (systemCol s1 !! uid) = Some tid) as [tid Hteam].
  { destruct op1 as [request|request| |]; simpl in *; try done.
    - apply createTeam_success in Hrun as (u & tid & Hu & _ & _ & Hgen & _ & ->).
      assert (u = uid) as -> by congruence.
      exists tid. apply truthy_teamOf. by apply Hnew.
    - apply joinTeam_success in Hrun
        as (u & tid & pw & td & Hu & _ & _ & Hne & _ & _ & _ & _ & _ & _ & ->).
      assert (u = uid) as -> by congruence.
      exists tid. by apply truthy_teamOf. }
  by eapply on_team_refused.
Qed.

Lemma filter_out_appended (uid : string) (ms : list string) :
  uid ∉ ms → filter (λ m, m ≠ uid) (ms ++ [uid])%list = ms.
Proof.
  intros Hout. induction ms as [|m ms IH]; simpl.
  - rewrite filter_cons_False; [done|]. by intros H.
  - apply not_elem_of_cons in Hout as [Hne Hout].
    rewrite filter_cons_True by done. by rewrite IH.
Qed.

(** X9: a user on no team who joins a team they are not yet listed on (and
    do not own), by its id as stored (a document id), and then leaves it
    puts the whole team collection back as it was; only their own membership
    differs, with [team = null] and a fresh [lastLeftTeam]. *)
Theorem join_then_leave_restores_teams env1 env2 uid tid pw td ms s :
  teamOf (systemCol s !! uid) = None →
  validDocumentPath tid = true → pw ≠ "" →
  teamCol s !! tid = Some td →
  password td = Some pw → members td = Some ms →
  uid ∉ ms → owner td ≠ Some uid →
  (inject_Z (membersLength (Some td)) < capacity (Some td))%Q →
  let joined := _joinTeamLogic env1
                  (mkRequest (Some uid) (JoinTeamData.mk (Some tid) (Some pw))) s in
  let result := _leaveTeamLogic env2 (mkRequest (Some uid) tt) (snd joined) in
  fst joined = inr (Joined true)
  ∧ fst result = inr (Left true)
  ∧ teamCol (snd result) = teamCol s
  ∧ (∃ d', systemCol (snd result) !! uid = Some d'
           ∧ team d' = TeamNull ∧ lastLeftTeam d' = Some (serverTime env2))
  ∧ (∀ x, x ≠ uid → systemCol (snd result) !! x = systemCol s !! x).
Proof.
  intros Hfree Hvalid Hpw Htd Hpass Hms Hout Hown Hroom joined result.
  subst result joined.
  pose proof (validDocumentPath_given _ Hvalid) as Hne.
  rewrite (join_ok env1 uid (JoinTeamData.mk (Some tid) (Some pw)) s tid pw
             Hfree eq_refl eq_refl Hvalid Hpw td Htd Hpass Hroom).
  simpl. split; [done|].
  rewrite leaveTeam_tree. simpl.
  rewrite truthy_teamOf by done. rewrite lookup_insert_eq. simpl.
  rewrite Htd. simpl. rewrite decide_False by done. simpl.
  split; [done|]. rewrite !lookup_insert_eq. split; [|split].
  - rewrite insert_insert_eq. apply insert_id. rewrite Htd. f_equal.
    destruct td as [o p m r c]. simpl in *. subst r.
    unfold mergeTeamMembers, applyTransform. simpl.
    rewrite decide_False by done. simpl. by rewrite filter_out_appended.
  - by eexists.
  - intros x Hx. by rewrite !lookup_insert_ne.
Qed.

(** X10: in a store whose rosters are within capacity, a listed member
    (not the owner) who leaves can rejoin at once with the password, by the
    team's id as stored (a document id): joining has no cooldown, and the
    place just vacated is free. *)
Theorem member_can_rejoin_at_once env1 env2 uid tid pw td s :
  withinCapacity s →
  teamOf (systemCol s !! uid) = Some tid →
  validDocumentPath tid = true →
  teamCol s !! tid = Some td →
  owner td ≠ Some uid → password td = Some pw → pw ≠ "" →
  uid ∈ default [] (members td) →
  let left := _leaveTeamLogic env1 (mkRequest (Some uid) tt) s in
  let result := _joinTeamLogic env2
                  (mkRequest (Some uid) (JoinTeamData.mk (Some tid) (Some pw)))
                  (snd left) in
  fst left = inr (Left true)
  ∧ fst result = inr (Joined true)
  ∧ teamOf (systemCol (snd result) !! uid) = Some tid
  ∧ ∃ td' ms', teamCol (snd result) !! tid = Some td'
               ∧ members td' = Some ms'
               ∧ ∀ x, x ∈ ms' ↔ x ∈ default [] (members td).
Proof.
  intros Hcap Hteam Hvalid Htd Hown Hpass Hpw Hin left result. subst result left.
  pose proof (teamOf_given _ _ Hteam) as Hne.
  rewrite leaveTeam_tree, Hteam, Htd. simpl.
  rewrite decide_False by done. simpl. split; [done|]. rewrite Htd.
  set (td1 := mergeTeamMembers (Some td) (arrayRemove uid)).
  set (s1 := mkStore _ _).
  assert (teamCol s1 !! tid = Some td1) as Htd1 by apply lookup_insert_eq.
  assert (teamOf (systemCol s1 !! uid) = None) as Hfree
    by (subst s1; simpl; by rewrite lookup_insert_eq).
  assert (inject_Z (membersLength (Some td1)) < capacity (Some td1))%Q as Hroom.
  { subst td1.
    change (capacity (Some (mergeTeamMembers (Some td) (arrayRemove uid))))
      with (capacity (Some td)).
    apply (room_after_shrink (membersLength (Some td))); [exact (Hcap _ _ Htd)|].
    rewrite membersLength_merge, membersLength_eq. unfold applyTransform.
    assert (¬ uid ≠ uid) as Hnn by (intros H; by apply H).
    pose proof (length_filter_lt (λ m, m ≠ uid) (default [] (members td)) uid Hin Hnn).
    lia. }
  rewrite (join_ok env2 uid (JoinTeamData.mk (Some tid) (Some pw)) s1 tid pw
             Hfree eq_refl eq_refl Hvalid Hpw td1 Htd1 Hpass Hroom).
  simpl. split; [done|]. split; [by apply truthy_teamOf|].
  eexists _, _. rewrite lookup_insert_eq. split; [done|].
  rewrite lookup_insert_eq. simpl. split; [done|].
  intros x. unfold applyTransform. simpl.
  case_decide as Hx.
  - by apply list_elem_of_filter in Hx as [? _].
  - rewrite elem_of_app, list_elem_of_filter, list_elem_of_singleton.
    destruct (decide (x = uid)) as [->|Hxu]; [tauto|]. tauto.
Qed.

(** The user a successful call removes from a team: the caller of
    [leaveTeam], the target of [kickTeamMember]. *)
Definition departing (op : Operation) (uid : string) : Prop :=
  match op with
  | leaveTeam request => auth request = Some uid
  | kickTeamMember request => KickTeamMemberData.kicked (data request) = Some uid
  | _ => False
  end.

Lemma stamped_user_is_cooling late uid data s d stamp :
  systemCol s !! uid = Some d → team d = TeamNull → lastLeftTeam d = Some stamp →
  Timestamp.now (dateNow late) - cooldown < stamp →
  ∃ msg, _createTeamLogic late (mkRequest (Some uid) data) s
         = (inl (mkHttpsError failed_precondition msg None), s).
Proof.
  intros Hd Hnull Hlast Hwindow. rewrite createTeam_tree, Hd.
  unfold teamOf, cooling. rewrite Hnull. simpl. rewrite Hlast.
  unfold Timestamp.gt. rewrite fiveMinutesAgo_eq.
  rewrite (proj2 (Z.ltb_lt _ _)) by lia. by eexists.
Qed.

(** X11: leaving or being kicked starts the cooldown.  After a successful
    [leaveTeam] by a user, or a successful [kickTeamMember] against them, a
    [createTeam] by that user whose clock is less than five minutes past the
    commit time of the departure fails with [failed-precondition] and
    changes nothing. *)
Theorem departure_starts_cooldown env late op s uid r data :
  departing op uid →
  fst (perform env op s) = inr r →
  Timestamp.now (dateNow late) - cooldown < serverTime env →
  ∃ msg, _createTeamLogic late (mkRequest (Some uid) data) (snd (perform env op s))
         = (inl (mkHttpsError failed_precondition msg None), snd (perform env op s)).
Proof.
  intros Hdep Hok Hwindow.
  destruct (perform env op s) as [r1 s1] eqn:Hrun. simpl in *. subst r1.
  destruct op as [| |request|request]; simpl in *; try done.
  - apply leaveTeam_success in Hrun as (u & tid & Hu & Hteam & _ & [[_ ->]|[_ ->]]);
      assert (u = uid) as -> by congruence.
    + destruct (decide (uid ∈ default [] ((teamCol s !! tid) ≫= members))) as [Hin|Hout].
      * eapply stamped_user_is_cooling;
          [by rewrite systemCol_disband, decide_True by done|done..].
      * rewrite createTeam_tree, systemCol_disband, decide_False by done.
        rewrite Hteam. by eexists.
    + eapply stamped_user_is_cooling; [simpl; by rewrite lookup_insert_eq|done..].
  - apply kickTeamMember_success in Hrun
      as (u & kicked & tid & _ & Hk & _ & _ & _ & _ & _ & _ & ->).
    assert (kicked = uid) as -> by congruence.
    eapply stamped_user_is_cooling; [simpl; by rewrite lookup_insert_eq|done..].
Qed.

(** ** Stored team ids are document paths *)

(** Every team document is stored under a document path, and every
    membership that names a team names one by a document path. *)
Definition idsAreDocumentPaths (s : Store) : Prop :=
  (∀ tid td, teamCol s !! tid = Some td → validDocumentPath tid = true)
  ∧ (∀ uid d tid, systemCol s !! uid = Some d → team d = TeamStr tid →
       validDocumentPath tid = true).

(** The id drawn for a new team is a document path. *)
Definition idIsDocumentPath (env : Env) (op : Operation) : Prop :=
  match op with
  | createTeam _ =>
      ∀ tid, teamIdGen env = generatorReturns tid → validDocumentPath tid = true
  | _ => True
  end.

Lemma joinTeam_success_valid env request s r s' tid :
  _joinTeamLogic env request s = (inr r, s') →
  JoinTeamData.id (data request) = Some tid → validDocumentPath tid = true.
Proof.
  unfold _joinTeamLogic, validateAuth, runTransaction.
  destruct (auth request) as [uid|]; [|discriminate].
  tx_unfold. intros H Hid. rewrite Hid in H.
  destruct (teamOf (systemCol s !! uid)); [discriminate|].
  destruct (JoinTeamData.password (data request)) as [pw|]; [|discriminate].
  destruct (truthy tid && truthy pw); [|discriminate].
  by destruct (validDocumentPath tid).
Qed.

Lemma idsAreDocumentPaths_enter uid tid (td' : TeamDocData) s :
  idsAreDocumentPaths s → validDocumentPath tid = true →
  idsAreDocumentPaths
    (mkStore (<[uid := mergeSystem (systemCol s !! uid) (TeamStr tid) None]> (systemCol s))
       (<[tid := td']> (teamCol s))).
Proof.
  intros [Hteams Hnamed] Hvalid. split; simpl.
  - intros tid0 td0. destruct (decide (tid0 = tid)) as [->|Hne]; [done|].
    rewrite lookup_insert_ne by done. apply Hteams.
  - intros x d tid0. destruct (decide (x = uid)) as [->|Hne].
    + rewrite lookup_insert_eq. by intros [= <-] [= <-].
    + rewrite lookup_insert_ne by done. apply Hnamed.
Qed.

Lemma idsAreDocumentPaths_depart t uid tid s :
  idsAreDocumentPaths s → validDocumentPath tid = true →
  idsAreDocumentPaths (commit t (departWrites uid tid) s).
Proof.
  intros [Hteams Hnamed] Hvalid. split; simpl.
  - intros tid0 td0. destruct (decide (tid0 = tid)) as [->|Hne]; [done|].
    rewrite lookup_insert_ne by done. apply Hteams.
  - intros x d tid0. destruct (decide (x = uid)) as [->|Hne].
    + rewrite lookup_insert_eq. by intros [= <-] [=].
    + rewrite lookup_insert_ne by done. apply Hnamed.
Qed.

Lemma idsAreDocumentPaths_perform env op s :
  idsAreDocumentPaths s → idIsDocumentPath env op →
  idsAreDocumentPaths (snd (perform env op s)).
Proof.
  intros Hids Hdrawn.
  assert (∀ uid tid, teamOf (systemCol s !! uid) = Some tid →
                     validDocumentPath tid = true) as Hof.
  { intros uid tid Hteam. destruct (systemCol s !! uid) as [d|] eqn:Hd; [|done].
    destruct Hids as [_ Hnamed]. eapply Hnamed; [done|]. by apply teamOf_names. }
  destruct (perform env op s) as [[e|r] s'] eqn:Hrun; simpl.
  - by rewrite (perform_failure _ _ _ _ _ Hrun).
  - destruct op as [request|request|request|request]; simpl in Hrun.
    + apply createTeam_success in Hrun as (uid & tid & _ & _ & _ & Hgen & _ & ->).
      exact (idsAreDocumentPaths_enter uid tid _ s Hids (Hdrawn _ Hgen)).
    + pose proof (λ tid, joinTeam_success_valid _ _ _ _ _ tid Hrun) as Hvalid.
      apply joinTeam_success in Hrun
        as (uid & tid & pw & td & _ & _ & Hid & _ & _ & _ & _ & _ & _ & _ & ->).
      exact (idsAreDocumentPaths_enter uid tid _ s Hids (Hvalid tid Hid)).
    + apply leaveTeam_success in Hrun as (uid & tid & _ & Hteam & _ & [[_ ->]|[_ ->]]).
      * destruct Hids as [Hteams Hnamed]. split.
        -- intros tid0 td0. rewrite teamCol_disband.
           intros [_ Htd]%lookup_delete_Some. by eapply Hteams.
        -- intros x d tid0. rewrite systemCol_disband.
           case_decide; [by intros [= <-] [=]|apply Hnamed].
      * apply idsAreDocumentPaths_depart; [done|]. by eapply Hof.
    + apply kickTeamMember_success in Hrun
        as (uid & kicked & tid & _ & _ & _ & _ & Hteam & _ & _ & _ & ->).
      apply idsAreDocumentPaths_depart; [done|]. by eapply Hof.
Qed.

(** X24: if every team document is stored under a document path and every
    membership that names a team names one by a document path, the same
    holds after any of the four operations, provided the id drawn for a new
    team is a document path (the ids of the generator are): [joinTeam]
    stores the id it was given only after [doc] has accepted it, and
    [leaveTeam] and [kickTeamMember] write under the id of the caller's
    membership. *)
Theorem stored_ids_are_document_paths env op s :
  idsAreDocumentPaths s → idIsDocumentPath env op →
  idsAreDocumentPaths (snd (perform env op s)).
Proof. apply idsAreDocumentPaths_perform. Qed.

(** ** The error codes each operation can return *)

(** [internal], the code of everything the [catch] wraps, and then the
    codes of the [HttpsError]s the operation throws itself. *)
Definition possibleCodes (op : Operation) : list FunctionsErrorCode :=
  internal ::
  match op with
  | createTeam _ => [unauthenticated; failed_precondition]
  | joinTeam _ =>
      [unauthenticated; invalid_argument; failed_precondition; not_found;
       resource_exhausted]
  | leaveTeam _ => [unauthenticated; failed_precondition]
  | kickTeamMember _ =>
      [unauthenticated; invalid_argument; failed_precondition; permission_denied;
       not_found]
  end.

Ltac listed_code :=
  intros [= <-]; split;
  [unfold possibleCodes; repeat first [apply list_elem_of_here | apply list_elem_of_further]
  |first [done | intros Hcode; by destruct Hcode]].

(** X12: a failing call reports [internal] or one of the codes its
    operation throws itself, and nothing else: [permission-denied] comes
    from [kickTeamMember] only, [resource-exhausted] from [joinTeam] only,
    [not-found] and [invalid-argument] from these two only; and only an
    [internal] error carries details. *)
Theorem failures_use_listed_codes env op s e :
  fst (perform env op s) = inl e →
  code e ∈ possibleCodes op ∧ (code e ≠ internal → details e = None).
Proof.
  destruct op as [[[uid|] d]|[[uid|] d]|[[uid|] []]|[[uid|] [k]]]; simpl;
    try listed_code.
  - rewrite createTeam_tree.
    destruct (teamOf (systemCol s !! uid)); [listed_code|].
    destruct (cooling env (systemCol s !! uid)); [listed_code|].
    destruct (teamIdGen env); [listed_code|done].
  - unfold _joinTeamLogic, validateAuth, runTransaction. simpl. tx_unfold.
    destruct (teamOf (systemCol s !! uid)); [listed_code|].
    destruct (JoinTeamData.id d) as [tid|]; [|listed_code].
    destruct (JoinTeamData.password d) as [pw|]; [|listed_code].
    destruct (truthy tid && truthy pw); [|listed_code].
    destruct (validDocumentPath tid); [|listed_code].
    destruct (teamCol s !! tid) as [td|]; [|listed_code].
    case_decide; [|listed_code].
    destruct (Qle_bool _ _); [listed_code|done].
  - rewrite leaveTeam_tree.
    destruct (teamOf (systemCol s !! uid)); [by case_decide|listed_code].
  - unfold _kickTeamMemberLogic. simpl.
    destruct k as [kicked|]; [|listed_code].
    unfold truthy. destruct (decide (kicked = "")); simpl; [listed_code|].
    destruct (decide (kicked = uid)); [listed_code|].
    pose proof (kickTeamMember_tree env uid kicked s ltac:(done) ltac:(done)) as Htree.
    unfold _kickTeamMemberLogic, truthy in Htree. simpl in Htree.
    rewrite !decide_False in Htree by done. simpl in Htree. rewrite Htree.
    destruct (teamOf (systemCol s !! uid)); [|listed_code].
    repeat case_decide; try done; listed_code.
Qed.

(** * The HTTP entry point of [createTeam] *)

(** ** Strings *)

Fixpoint dropString (n : nat) (s : string) : string :=
  match n, s with
  | O, _ => s
  | S n', String _ rest => dropString n' rest
  | S _, EmptyString => EmptyString
  end.

(** [s.replace(searchValue, replaceValue)] with a string pattern: the first
    occurrence only. *)
Fixpoint replace (searchValue replaceValue s : string) : string :=
  if String.prefix searchValue s then
    String.append replaceValue (dropString (String.length searchValue) s)
  else
    match s with
    | EmptyString => EmptyString
    | String c rest => String c (replace searchValue replaceValue rest)
    end.

(** ** Requests and responses *)

Inductive ResponseBody (R : Type) :=
| sendText (text : string)
| jsonError (error : string)
| jsonResult (result : R).
Arguments sendText {R} _.
Arguments jsonError {R} _.
Arguments jsonResult {R} _.

Record HttpResponse (R : Type) := mkResponse {
  headers : list (string * string);
  status : Z;
  body : ResponseBody R
}.
Arguments mkResponse {R} _ _ _.
Arguments headers {R} _.
Arguments status {R} _.
Arguments body {R} _.

Record HttpRequest (B : Type) := mkHttpRequest {
  method : string;
  authorization : option string;
  requestBody : B
}.
Arguments mkHttpRequest {B} _ _ _.
Arguments method {B} _.
Arguments authorization {B} _.
Arguments requestBody {B} _.

(** [(await admin.auth().verifyIdToken(token)).uid], or what it throws. *)
Definition Verifier : Type := string → Generated string.

Definition createTeamHttpHeaders : list (string * string) :=
  [("Access-Control-Allow-Origin", "*");
   ("Access-Control-Allow-Methods", "POST, OPTIONS");
   ("Access-Control-Allow-Headers", "Content-Type, Authorization")].

Definition createTeamHttp (verifyIdToken : Verifier) (env : Env)
    (req : HttpRequest CreateTeamData.t) (s : Store) : HttpResponse Success * Store :=
  let respond st b := mkResponse createTeamHttpHeaders st b in
  if decide (method req = "OPTIONS") then (respond 200 (sendText ""), s)
  else if decide (method req ≠ "POST") then
    (respond 405 (sendText "Method Not Allowed"), s)
  else
    match replace "Bearer " "" <$> authorization req with
    | None => (respond 401 (jsonError "Authentication required"), s)
    | Some authToken =>
        if negb (truthy authToken) then
          (respond 401 (jsonError "Authentication required"), s)
        else
          match verifyIdToken authToken with
          | generatorThrows _ => (respond 500 (jsonError "Internal server error"), s)
          | generatorReturns uid =>
              match _createTeamLogic env (mkRequest (Some uid) (requestBody req)) s with
              | (inr result, s') => (respond 200 (jsonResult result), s')
              | (inl error, s') => (respond 400 (jsonError (message error)), s')
              end
          end
    end.

Lemma prefix_append p rest : String.prefix p (String.append p rest) = true.
Proof.
  induction p as [|c p IH]; [by destruct rest|].
  change (String.append (String c p) rest) with (String c (String.append p rest)).
  simpl. by destruct (Ascii.ascii_dec c c).
Qed.

Lemma dropString_append p rest :
  dropString (String.length p) (String.append p rest) = rest.
Proof.
  induction p as [|c p IH]; [done|].
  change (String.append (String c p) rest) with (String c (String.append p rest)).
  simpl. apply IH.
Qed.

Lemma replace_unfold searchValue replaceValue s :
  replace searchValue replaceValue s =
    if String.prefix searchValue s then
      String.append replaceValue (dropString (String.length searchValue) s)
    else
      match s with
      | EmptyString => EmptyString
      | String c rest => String c (replace searchValue replaceValue rest)
      end.
Proof. by destruct s. Qed.

Lemma replace_prefix searchValue replaceValue rest :
  replace searchValue replaceValue (String.append searchValue rest)
  = String.append replaceValue rest.
Proof.
  by rewrite replace_unfold, prefix_append, dropString_append.
Qed.

(** X13: the HTTP endpoint answers with one of 200, 400, 401, 405 and
    500, and the store changes only under a 200 answer to a POST.  Every
    failure of the team logic, an [internal] one included, is answered 400
    with the error's message; 500 is only the answer to a token that fails
    verification. *)
Theorem createTeamHttp_status verifyIdToken env req s :
  let out := createTeamHttp verifyIdToken env req s in
  status (fst out) ∈ [200; 400; 401; 405; 500]
  ∧ (snd out ≠ s → status (fst out) = 200 ∧ method req = "POST")
  ∧ (status (fst out) = 500 →
     ∃ header msg, authorization req = Some header
                   ∧ verifyIdToken (replace "Bearer " "" header) = generatorThrows msg)
  ∧ (∀ uid error s',
       method req = "POST" →
       (∃ header, authorization req = Some header
                  ∧ replace "Bearer " "" header ≠ ""
                  ∧ verifyIdToken (replace "Bearer " "" header) = generatorReturns uid) →
       _createTeamLogic env (mkRequest (Some uid) (requestBody req)) s = (inl error, s') →
       out = (mkResponse createTeamHttpHeaders 400 (jsonError (message error)), s)).
Proof.
  intros out. subst out. unfold createTeamHttp.
  split; [|split; [|split]].
  - repeat case_decide; simpl; [set_solver..|].
    destruct (authorization req) as [header|]; simpl; [|set_solver].
    destruct (truthy _); simpl; [|set_solver].
    destruct (verifyIdToken _); simpl; [set_solver|].
    destruct (_createTeamLogic _ _ _) as [[e|r] s']; simpl; set_solver.
  - repeat case_decide; simpl; try done.
    assert (method req = "POST") as Hpost
      by (destruct (decide (method req = "POST")); [done|contradiction]).
    destruct (authorization req) as [header|]; simpl; [|done].
    destruct (truthy _); simpl; [|done].
    destruct (verifyIdToken _); simpl; [done|].
    destruct (_createTeamLogic _ _ _) as [[e|r] s'] eqn:Hrun; simpl; [|done].
    intros Hchanged. destruct Hchanged.
    by apply (perform_failure env (createTeam (mkRequest (Some a) (requestBody req))) s e).
  - repeat case_decide; simpl; try done.
    destruct (authorization req) as [header|]; simpl; [|done].
    destruct (truthy _); simpl; [|done].
    destruct (verifyIdToken _) as [msg|uid] eqn:Hv; simpl; [eauto|].
    by destruct (_createTeamLogic _ _ _) as [[e|r] s'].
  - intros uid error s' Hpost (header & Hh & Htok & Hv) Hrun.
    rewrite Hpost, Hh. simpl.
    unfold truthy. rewrite decide_False by done. simpl. rewrite Hv, Hrun.
    f_equal.
    by apply (perform_failure env (createTeam (mkRequest (Some uid) (requestBody req)))
                s error).
Qed.

(** X14: a header ["Bearer " ++ token] with a non-empty token that verifies
    makes the endpoint run [createTeam] for the verified user on the request
    body: the answer is 200 with its result and the store is the one the
    operation leaves, or 400 with its error message. *)
Theorem createTeamHttp_runs_createTeam verifyIdToken env body token uid s :
  token ≠ "" →
  verifyIdToken token = generatorReturns uid →
  createTeamHttp verifyIdToken env
    (mkHttpRequest "POST" (Some (String.append "Bearer " token)) body) s
  = match _createTeamLogic env (mkRequest (Some uid) body) s with
    | (inr result, s') => (mkResponse createTeamHttpHeaders 200 (jsonResult result), s')
    | (inl error, s') =>
        (mkResponse createTeamHttpHeaders 400 (jsonError (message error)), s')
    end.
Proof.
  intros Htok Hv. unfold createTeamHttp.
  cbn [method authorization requestBody fmap option_fmap option_map].
  rewrite (replace_prefix "Bearer " "" token).
  change (String.append "" token) with token.
  rewrite (decide_False (P := "POST" ≠ "POST")) by (by intros H).
  unfold truthy. rewrite decide_False by done.
  rewrite (decide_False (P := token = "")) by done. cbn [negb]. by rewrite Hv.
Qed.

(** * The HTTP entry point of [createToken] *)

(** The model is the handler function passed to [onRequest].  The function
    is registered with [cors: true]: the CORS middleware of the platform
    runs first, answers an OPTIONS request itself, and hands any other
    request to the handler, whose [Access-Control-Allow-Origin] replaces the
    one the middleware has set.  The OPTIONS branch of the handler is
    therefore not reached once deployed; what is proved below about answers
    concerns the requests the handler receives. *)

(** A request header as Node hands it over: absent, one string, or several. *)
Inductive HeaderValue :=
| headerAbsent
| headerString (value : string)
| headerArray (values : list string).

(** What [_createTokenLogic] (imported from [./token/create.js]) did: it
    returned a result, threw an [HttpsError] with the given code, or threw
    something else. *)
Inductive TokenOutcome (R : Type) :=
| tokenReturns (result : R)
| tokenThrowsHttps (errorCode : string) (errorMessage : string)
| tokenThrowsOther.
Arguments tokenReturns {R} _.
Arguments tokenThrowsHttps {R} _ _.
Arguments tokenThrowsOther {R}.

Definition allowedOrigins : list string :=
  ["http://localhost:5173"; "http://localhost:8080"; "https://tarkovtracker.org";
   "https://www.tarkovtracker.org"].

Definition statusMap : list (string * Z) :=
  [("invalid-argument", 400); ("unauthenticated", 401); ("permission-denied", 403);
   ("not-found", 404); ("resource-exhausted", 429); ("internal", 500); ("ok", 200);
   ("cancelled", 499); ("unknown", 500); ("deadline-exceeded", 504);
   ("already-exists", 409); ("failed-precondition", 400); ("aborted", 409);
   ("out-of-range", 400); ("unavailable", 503); ("data-loss", 500)].

(** [statusMap[code] || 500] *)
Definition statusOf (errorCode : string) : Z :=
  match list_find (λ entry, fst entry = errorCode) statusMap with
  | Some (_, (_, st)) => if decide (st = 0) then 500 else st
  | None => 500
  end.

Definition createTokenHttpHeaders (originHeader : HeaderValue) : list (string * string) :=
  let origin := match originHeader with
                | headerString value => Some value
                | _ => None
                end in
  [("Access-Control-Allow-Origin",
    match origin with
    | Some o => if truthy o && bool_decide (o ∈ allowedOrigins) then o
                else "https://tarkovtracker.org"
    | None => "https://tarkovtracker.org"
    end);
   ("Access-Control-Allow-Methods", "POST, OPTIONS");
   ("Access-Control-Allow-Headers", "Content-Type, Authorization");
   ("Access-Control-Allow-Credentials", "true");
   ("Access-Control-Max-Age", "3600")].

Definition createTokenHttp {B R} (verifyIdToken : Verifier)
    (_createTokenLogic : CallableRequest B → TokenOutcome R)
    (originHeader : HeaderValue) (req : HttpRequest B) : HttpResponse R :=
  let respond st b := mkResponse (createTokenHttpHeaders originHeader) st b in
  if decide (method req = "OPTIONS") then respond 200 (sendText "")
  else if decide (method req ≠ "POST") then respond 405 (sendText "Method Not Allowed")
  else
    match replace "Bearer " "" <$> authorization req with
    | None => respond 401 (jsonError "Authentication required")
    | Some authToken =>
        if negb (truthy authToken) then respond 401 (jsonError "Authentication required")
        else
          match verifyIdToken authToken with
          | generatorThrows _ => respond 500 (jsonError "Internal server error")
          | generatorReturns uid =>
              match _createTokenLogic (mkRequest (Some uid) (requestBody req)) with
              | tokenReturns result => respond 200 (jsonResult result)
              | tokenThrowsHttps errorCode errorMessage =>
                  respond (statusOf errorCode) (jsonError errorMessage)
              | tokenThrowsOther => respond 500 (jsonError "Internal server error")
              end
          end
    end.

Ltac listed := repeat first [apply list_elem_of_here | apply list_elem_of_further].

Lemma createTokenHttp_headers {B R} verifyIdToken (logic : CallableRequest B → TokenOutcome R)
    originHeader req :
  headers (createTokenHttp verifyIdToken logic originHeader req)
  = createTokenHttpHeaders originHeader.
Proof.
  unfold createTokenHttp. repeat case_decide; try done.
  destruct (authorization req); simpl; [|done].
  destruct (truthy _); simpl; [|done].
  destruct (verifyIdToken _); simpl; [done|].
  by destruct (logic _).
Qed.

(** X15: whatever the request, the [Access-Control-Allow-Origin] header the
    handler sets is one of the four allowed origins: the request's own origin
    when that is a single string on the list, the production origin
    otherwise.  The handler never echoes an origin outside the list (what the
    [cors: true] option of the deployment adds is outside this model). *)
Theorem createTokenHttp_allows_listed_origins {B R} verifyIdToken
    (logic : CallableRequest B → TokenOutcome R) originHeader req :
  ∃ allowed rest,
    headers (createTokenHttp verifyIdToken logic originHeader req)
    = ("Access-Control-Allow-Origin", allowed) :: rest
    ∧ allowed ∈ allowedOrigins
    ∧ (∀ o, originHeader = headerString o → o ∈ allowedOrigins → allowed = o)
    ∧ ((∀ o, originHeader = headerString o → o ∉ allowedOrigins) →
       allowed = "https://tarkovtracker.org").
Proof.
  rewrite createTokenHttp_headers. unfold createTokenHttpHeaders.
  eexists _, _. split; [done|].
  assert ("https://tarkovtracker.org" ∈ allowedOrigins) as Hdefault
    by (unfold allowedOrigins; listed).
  destruct originHeader as [|o|os]; try (split; [done|]; split; [done|done]).
  destruct (truthy o) eqn:Ht; simpl.
  - destruct (bool_decide (o ∈ allowedOrigins)) eqn:Hin.
    + apply bool_decide_eq_true in Hin. split; [done|]. split; [by intros ? [= <-]|].
      intros Hout. by destruct (Hout o eq_refl).
    + apply bool_decide_eq_false in Hin. split; [done|]. split; [|done].
      by intros ? [= <-].
  - split; [done|]. split; [|done]. intros ? [= <-] Hin.
    unfold truthy in Ht. destruct (decide (o = "")) as [->|]; [|done].
    unfold allowedOrigins in Hin.
    repeat (apply elem_of_cons in Hin as [Hin|Hin]; [discriminate|]).
    by apply elem_of_nil in Hin.
Qed.

(** X16: of the requests that reach the handler (an OPTIONS request does
    not: the [cors: true] option answers it first), the token logic is
    consulted only for a POST with a token that verifies.  A request with
    another method, without an [Authorization] header, with one that is
    empty once ["Bearer "] is removed, or whose token fails verification gets
    the same answer whatever the token logic would do: 405, 401 or 500. *)
Theorem createTokenHttp_gates_token_logic {B R} verifyIdToken
    (logic1 logic2 : CallableRequest B → TokenOutcome R) originHeader req :
  method req ≠ "OPTIONS" →
  method req ≠ "POST"
  ∨ authorization req = None
  ∨ (∃ header, authorization req = Some header
               ∧ (replace "Bearer " "" header = ""
                  ∨ ∃ msg, verifyIdToken (replace "Bearer " "" header)
                           = generatorThrows msg)) →
  createTokenHttp verifyIdToken logic1 originHeader req
  = createTokenHttp verifyIdToken logic2 originHeader req
  ∧ status (createTokenHttp verifyIdToken logic1 originHeader req) ∈ [405; 401; 500].
Proof.
  unfold createTokenHttp. intros Hreaches Hgate.
  destruct (decide (method req = "OPTIONS")); [done|].
  destruct (decide (method req ≠ "POST")) as [|Hpost]; [split; [done|listed]|].
  destruct Hgate as [?|[Hnone|(header & Hh & Hbad)]]; [done|..].
  - rewrite Hnone. simpl. split; [done|listed].
  - rewrite Hh. simpl. destruct Hbad as [->|[msg Hv]].
    + simpl. split; [done|listed].
    + destruct (truthy _); simpl; [|split; [done|listed]].
      rewrite Hv. split; [done|listed].
Qed.

Lemma statusOf_unlisted errorCode : errorCode ∉ statusMap.*1 → statusOf errorCode = 500.
Proof.
  intros Hout. unfold statusOf.
  destruct (list_find _ statusMap) as [[i [c st]]|] eqn:Hfind; [|done].
  apply list_find_Some in Hfind as (Hi & Heq & _). simpl in Heq. subst c.
  destruct Hout. apply list_elem_of_fmap. exists (errorCode, st). split; [done|].
  by eapply list_elem_of_lookup_2.
Qed.

Lemma statusOf_listed errorCode :
  errorCode ∈ statusMap.*1 → errorCode ≠ "ok" → 400 ≤ statusOf errorCode ≤ 504.
Proof.
  intros Hin Hok. unfold statusMap in Hin. simpl in Hin.
  repeat (apply elem_of_cons in Hin as [->|Hin]; [try done; by vm_compute|]).
  by apply elem_of_nil in Hin.
Qed.

(** X17: when the token logic throws an [HttpsError], the answer carries
    the error's message, with a status between 400 and 504 when the code is
    in the status table and is not ["ok"]; for the code ["ok"] the answer is a
    200 with an error body, and a code outside the table gives 500. *)
Theorem createTokenHttp_error_status {B R} verifyIdToken
    (logic : CallableRequest B → TokenOutcome R) originHeader (payload : B) token uid
    errorCode errorMessage :
  token ≠ "" →
  verifyIdToken token = generatorReturns uid →
  logic (mkRequest (Some uid) payload) = tokenThrowsHttps errorCode errorMessage →
  let answer := createTokenHttp verifyIdToken logic originHeader
                  (mkHttpRequest "POST" (Some (String.append "Bearer " token)) payload) in
  body answer = jsonError errorMessage
  ∧ (errorCode ∈ statusMap.*1 → errorCode ≠ "ok" → 400 ≤ status answer ≤ 504)
  ∧ (errorCode = "ok" → status answer = 200)
  ∧ (errorCode ∉ statusMap.*1 → status answer = 500).
Proof.
  intros Htok Hv Hthrow answer.
  assert (answer = mkResponse (createTokenHttpHeaders originHeader) (statusOf errorCode)
                     (jsonError errorMessage)) as ->.
  { subst answer. unfold createTokenHttp.
    cbn [method authorization requestBody fmap option_fmap option_map].
    rewrite (replace_prefix "Bearer " "" token).
    change (String.append "" token) with token.
    rewrite (decide_False (P := "POST" ≠ "POST")) by (by intros H).
    unfold truthy. rewrite decide_False by done.
    rewrite (decide_False (P := token = "")) by done. cbn [negb].
    by rewrite Hv, Hthrow. }
  simpl. split; [done|]. split; [apply statusOf_listed|]. split; [by intros ->|].
  apply statusOf_unlisted.
Qed.

(** * Account deletion *)

Module DeleteAccountData.
Record t := mk { confirmationText : option string }.
End DeleteAccountData.

(** What [UserDeletionService.deleteUserAccount] (loaded from
    [./handlers/userDeletionHandler.js]) did: it returned a result, threw an
    [Error] carrying a [statusCode], threw a plain [Error], or threw a value
    that is no [Error]. *)
Inductive ServiceOutcome (R : Type) :=
| serviceReturns (result : R)
| serviceThrowsStatus (statusCode : Z) (errorMessage : string)
| serviceThrowsError (errorMessage : string)
| serviceThrowsValue.
Arguments serviceReturns {R} _.
Arguments serviceThrowsStatus {R} _ _.
Arguments serviceThrowsError {R} _.
Arguments serviceThrowsValue {R}.

(** The callable [deleteUserAccount]; [request.data] may be missing. *)
Definition deleteUserAccount {R}
    (userDeletionService : string → string → ServiceOutcome R)
    (request : CallableRequest (option DeleteAccountData.t)) : HttpsError + R :=
  match auth request with
  | None => inl (mkHttpsError unauthenticated "Authentication required" None)
  | Some uid =>
      if negb (truthy uid) then
        inl (mkHttpsError unauthenticated "Authentication required" None)
      else
        let confirmationText := data request ≫= DeleteAccountData.confirmationText in
        if decide (confirmationText = Some "DELETE MY ACCOUNT") then
          match userDeletionService uid "DELETE MY ACCOUNT" with
          | serviceReturns result => inr result
          | serviceThrowsStatus statusCode errorMessage =>
              if decide (statusCode = 400) then
                inl (mkHttpsError invalid_argument errorMessage None)
              else if decide (statusCode = 401) then
                inl (mkHttpsError unauthenticated errorMessage None)
              else if decide (statusCode = 403) then
                inl (mkHttpsError permission_denied errorMessage None)
              else inl (mkHttpsError internal errorMessage None)
          | serviceThrowsError errorMessage =>
              inl (mkHttpsError internal errorMessage None)
          | serviceThrowsValue =>
              inl (mkHttpsError internal "Account deletion failed" None)
          end
        else inl (mkHttpsError invalid_argument "Invalid confirmation text" None)
  end.

(** X18: an account is deleted only for an authenticated caller who sent
    exactly ['DELETE MY ACCOUNT']: a successful call had a non-empty uid,
    that confirmation text, and returns what the deletion service returned
    for that uid.  Without them the call fails ([unauthenticated], then
    [invalid-argument]) in the same way whatever the service would do, so the
    service is not consulted. *)
Theorem deleteUserAccount_needs_confirmation {R}
    (service : string → string → ServiceOutcome R) request :
  (∀ result, deleteUserAccount service request = inr result →
     ∃ uid, auth request = Some uid ∧ uid ≠ ""
            ∧ data request ≫= DeleteAccountData.confirmationText
              = Some "DELETE MY ACCOUNT"
            ∧ service uid "DELETE MY ACCOUNT" = serviceReturns result)
  ∧ ((auth request = None ∨ auth request = Some "") →
     ∀ other : string → string → ServiceOutcome R,
       deleteUserAccount other request
       = inl (mkHttpsError unauthenticated "Authentication required" None))
  ∧ (∀ uid, auth request = Some uid → uid ≠ "" →
     data request ≫= DeleteAccountData.confirmationText ≠ Some "DELETE MY ACCOUNT" →
     ∀ other : string → string → ServiceOutcome R,
       deleteUserAccount other request
       = inl (mkHttpsError invalid_argument "Invalid confirmation text" None)).
Proof.
  unfold deleteUserAccount, truthy. split; [|split].
  - intros result.
    destruct (auth request) as [uid|]; [|done].
    destruct (decide (uid = "")); [done|]. simpl.
    case_decide as Htext; [|done].
    destruct (service uid _) eqn:Hs; try done; [|by repeat case_decide].
    intros [= <-]. by exists uid.
  - by intros [-> | ->].
  - intros uid -> Hne Htext other.
    rewrite decide_False by done. simpl. by rewrite decide_False by done.
Qed.

(** X19: when the deletion service fails, the caller gets the service's
    message under a code chosen by the status it threw: 400 gives
    [invalid-argument], 401 [unauthenticated], 403 [permission-denied], and
    every other status, like every other error, [internal]. *)
Theorem deleteUserAccount_error_codes {R}
    (service : string → string → ServiceOutcome R) data uid statusCode errorMessage :
  uid ≠ "" →
  DeleteAccountData.confirmationText data = Some "DELETE MY ACCOUNT" →
  service uid "DELETE MY ACCOUNT" = serviceThrowsStatus statusCode errorMessage →
  ∃ c, deleteUserAccount service (mkRequest (Some uid) (Some data))
       = inl (mkHttpsError c errorMessage None)
       ∧ (statusCode = 400 → c = invalid_argument)
       ∧ (statusCode = 401 → c = unauthenticated)
       ∧ (statusCode = 403 → c = permission_denied)
       ∧ (statusCode ∉ [400; 401; 403] → c = internal).
Proof.
  intros Hne Htext Hs. unfold deleteUserAccount, truthy. simpl.
  rewrite decide_False by done. simpl. rewrite Htext.
  rewrite decide_True by done. rewrite Hs.
  repeat case_decide; subst; eexists; (split; [done|]);
    repeat split; try done; try lia; intros Hout; destruct Hout; listed.
Qed.

(** * The recent-authentication middleware ([middleware/reauth.ts]) *)

(** The text before the first occurrence of [separator]: what
    [rest.split(separator)[0]] is. *)
Fixpoint untilSeparator (separator s : string) : string :=
  match s with
  | EmptyString => EmptyString
  | String c rest =>
      if String.prefix separator s then EmptyString
      else String c (untilSeparator separator rest)
  end.

Record ApiError := mkApiError {
  statusCode : Z;
  apiMessage : string;
  apiCode : option string
}.

Record DecodedIdToken := mkDecodedIdToken {
  uid : string;
  auth_time : Z;
  email : option string;
  name : option string
}.

(** [admin.auth().verifyIdToken(idToken, true)]: the decoded token, or the
    [code] of what it threw. *)
Inductive Verification :=
| verified (decodedToken : DecodedIdToken)
| verificationFails (errorCode : option string).

Record RequestUser := mkRequestUser {
  userId : string;
  username : option string;
  recentlyAuthenticated : bool
}.

(** What the middleware does with the request: hand it on with [req.user]
    set, or answer it. *)
Inductive MiddlewareResult :=
| next (user : RequestUser)
| respondJson (responseStatus : Z) (error : string) (errorCode : option string).

Section RecentAuth.

(** [errors.unauthorized] of [./errorHandler.js], which builds the
    [ApiError] for a missing header. *)
Variable unauthorized : string → ApiError.

Definition requireRecentAuth (verifyIdToken : string → bool → Verification)
    (dateNow : Z) (authHeader : option string) : MiddlewareResult :=
  let ofApiError e := respondJson (statusCode e) (apiMessage e) (apiCode e) in
  match authHeader with
  | None => ofApiError (unauthorized "Authentication required")
  | Some header =>
      if negb (truthy header) || negb (String.prefix "Bearer " header) then
        ofApiError (unauthorized "Authentication required")
      else
        let idToken := untilSeparator "Bearer " (dropString 7 header) in
        match verifyIdToken idToken true with
        | verified decodedToken =>
            let authTime := auth_time decodedToken * 1000 in
            let fiveMinutesAgo := dateNow - 5 * 60 * 1000 in
            if authTime <? fiveMinutesAgo then
              ofApiError
                (mkApiError 403
                   "Recent authentication required. Please sign out and sign back in to continue."
                   (Some "RECENT_AUTH_REQUIRED"))
            else
              next (mkRequestUser (uid decodedToken)
                      (match email decodedToken with
                       | Some e => if truthy e then Some e else name decodedToken
                       | None => name decodedToken
                       end)
                      true)
        | verificationFails errorCode =>
            if decide (errorCode = Some "auth/id-token-revoked") then
              respondJson 401 "Token has been revoked. Please sign in again."
                (Some "TOKEN_REVOKED")
            else if decide (errorCode = Some "auth/id-token-expired") then
              respondJson 401 "Token has expired. Please sign in again."
                (Some "TOKEN_EXPIRED")
            else respondJson 401 "Invalid authentication token" (Some "INVALID_TOKEN")
        end
  end.

(** X20: the middleware hands a request on exactly when its
    [Authorization] header starts with ["Bearer "], the token after it
    verifies (revocation checked), and the sign-in is at most five minutes
    old by the local clock; the user attached is the token's uid, marked
    recently authenticated. *)
Theorem requireRecentAuth_passes_only_recent verifyIdToken dateNow authHeader user :
  requireRecentAuth verifyIdToken dateNow authHeader = next user
  ↔ ∃ header decodedToken,
      authHeader = Some header
      ∧ String.prefix "Bearer " header = true
      ∧ verifyIdToken (untilSeparator "Bearer " (dropString 7 header)) true
        = verified decodedToken
      ∧ dateNow - 300000 ≤ auth_time decodedToken * 1000
      ∧ userId user = uid decodedToken
      ∧ recentlyAuthenticated user = true
      ∧ username user = (match email decodedToken with
                         | Some e => if truthy e then Some e else name decodedToken
                         | None => name decodedToken
                         end).
Proof.
  unfold requireRecentAuth. split.
  - destruct authHeader as [header|]; [|done].
    destruct (negb (truthy header) || negb (String.prefix "Bearer " header)) eqn:Hh; [done|].
    apply orb_false_elim in Hh as [_ Hpre]. apply negb_false_iff in Hpre.
    destruct (verifyIdToken _ true) as [tok|c] eqn:Hv; [|by repeat case_decide].
    destruct (auth_time tok * 1000 <? dateNow - 5 * 60 * 1000) eqn:Hold; [done|].
    intros [= <-]. exists header, tok. apply Z.ltb_ge in Hold.
    repeat split; try done; lia.
  - intros (header & tok & -> & Hpre & Hv & Hrecent & Hid & Hrec & Hname).
    assert (truthy header = true) as ->
      by (unfold truthy; destruct header; [discriminate Hpre|done]).
    rewrite Hpre. cbn [negb orb]. rewrite Hv.
    rewrite (proj2 (Z.ltb_ge _ _)) by lia.
    destruct user as [i u r]. simpl in *. by subst.
Qed.

(** X21: a verified token whose sign-in is more than five minutes old is
    answered 403 with the code [RECENT_AUTH_REQUIRED], and a token that
    fails verification is always answered 401, with [TOKEN_REVOKED] or
    [TOKEN_EXPIRED] for those two failures. *)
Theorem requireRecentAuth_rejections verifyIdToken dateNow header :
  String.prefix "Bearer " header = true →
  let idToken := untilSeparator "Bearer " (dropString 7 header) in
  let answer := requireRecentAuth verifyIdToken dateNow (Some header) in
  (∀ decodedToken,
     verifyIdToken idToken true = verified decodedToken →
     auth_time decodedToken * 1000 < dateNow - 300000 →
     ∃ msg, answer = respondJson 403 msg (Some "RECENT_AUTH_REQUIRED"))
  ∧ (∀ errorCode,
       verifyIdToken idToken true = verificationFails errorCode →
       ∃ msg c, answer = respondJson 401 msg (Some c)
                ∧ (errorCode = Some "auth/id-token-revoked" → c = "TOKEN_REVOKED")
                ∧ (errorCode = Some "auth/id-token-expired" → c = "TOKEN_EXPIRED")).
Proof.
  intros Hpre idToken answer. subst answer idToken. unfold requireRecentAuth.
  assert (truthy header = true) as ->
    by (unfold truthy; destruct header; [discriminate Hpre|done]).
  rewrite Hpre. cbn [negb orb]. split.
  - intros tok -> Hold. rewrite (proj2 (Z.ltb_lt _ _)) by lia. by eexists.
  - intros c ->. repeat case_decide; eexists _, _; (split; [done|]); split; congruence.
Qed.

End RecentAuth.

(** * The scheduled item import *)


Module TarkovItem.
Record t (P : Type) := mk { id : string; rest : P }.
Arguments mk {P} _ _.
Arguments id {P} _.
Arguments rest {P} _.
End TarkovItem.

Record TarkovDataResponse (P : Type) := mkTarkovData {
  items : option (list (TarkovItem.t P))
}.
Arguments mkTarkovData {P} _.
Arguments items {P} _.

(** The characters of the class [[/\\*?[\]]]. *)
Definition replacedInDocId : list ascii :=
  ["/"; "\"; "*"; "?"; "["; "]"]%char.

(** [item.id.replace(/[/\\*?[\]]/g, '_')] *)
Fixpoint docIdOf (id : string) : string :=
  match id with
  | EmptyString => EmptyString
  | String c rest =>
      String (if bool_decide (c ∈ replacedInDocId) then "_"%char else c) (docIdOf rest)
  end.

(** [retrieveTarkovdata]: the response, or [undefined] when the request
    throws. *)
Definition retrieveTarkovdata {P} (response : Generated (TarkovDataResponse P))
    : option (TarkovDataResponse P) :=
  match response with
  | generatorReturns data => Some data
  | generatorThrows _ => None
  end.

(** [saveTarkovData] on the "items" collection; [commitSucceeds] says
    whether [batch.commit()] goes through. *)
Definition saveTarkovData {P} (commitSucceeds : bool)
    (data : option (TarkovDataResponse P))
    (itemsCollection : gmap string (TarkovItem.t P)) : gmap string (TarkovItem.t P) :=
  match data ≫= items with
  | None => itemsCollection
  | Some itemList =>
      if commitSucceeds then
        foldl (λ batch item, <[docIdOf (TarkovItem.id item) := item]> batch)
          itemsCollection itemList
      else itemsCollection
  end.

Definition scheduledTarkovDataFetch {P} (response : Generated (TarkovDataResponse P))
    (commitSucceeds : bool) (itemsCollection : gmap string (TarkovItem.t P))
    : gmap string (TarkovItem.t P) :=
  saveTarkovData commitSucceeds (retrieveTarkovdata response) itemsCollection.

(** X22: the document id made from an item id has the same length, has
    none of the characters [/ \ * ? [ ]], is the item id itself when that
    has none of them, and is left alone by a second pass. *)
Theorem docIdOf_is_clean id :
  String.length (docIdOf id) = String.length id
  ∧ (∀ c, c ∈ list_ascii_of_string (docIdOf id) → c ∉ replacedInDocId)
  ∧ ((∀ c, c ∈ list_ascii_of_string id → c ∉ replacedInDocId) → docIdOf id = id)
  ∧ docIdOf (docIdOf id) = docIdOf id.
Proof.
  assert (Hunder : "_"%char ∉ replacedInDocId).
  { unfold replacedInDocId. intros Hin.
    repeat (apply elem_of_cons in Hin as [Hin|Hin]; [discriminate|]).
    by apply elem_of_nil in Hin. }
  induction id as [|c rest (Hlen & Hclean & Hsame & Hidem)]; [repeat split; try done|].
  { intros c Hc. by apply elem_of_nil in Hc. }
  simpl. split; [by rewrite Hlen|]. split; [|split].
  - intros x [->|Hx]%elem_of_cons; [|by apply Hclean].
    case_bool_decide; done.
  - intros Hok. rewrite bool_decide_eq_false_2.
    + f_equal. apply Hsame. intros x Hx. apply Hok. by apply list_elem_of_further.
    + apply Hok. apply list_elem_of_here.
  - rewrite Hidem. f_equal.
    destruct (bool_decide (c ∈ replacedInDocId)) eqn:Hc.
    + by rewrite bool_decide_eq_false_2.
    + by rewrite Hc.
Qed.

Lemma lookup_batch {P} (itemList : list (TarkovItem.t P))
    (itemsCollection : gmap string (TarkovItem.t P)) (docId : string) :
  foldl (λ batch item, <[docIdOf (TarkovItem.id item) := item]> batch)
    itemsCollection itemList !! docId
  = match last (filter (λ item, docIdOf (TarkovItem.id item) = docId) itemList) with
    | Some item => Some item
    | None => itemsCollection !! docId
    end.
Proof.
  revert itemsCollection. induction itemList as [|item itemList IH]; intros col; [done|].
  simpl. rewrite IH.
  destruct (decide (docIdOf (TarkovItem.id item) = docId)) as [Heq|Hne].
  - rewrite filter_cons_True by done. rewrite last_cons.
    destruct (last (filter _ itemList)); [done|]. by rewrite Heq, lookup_insert_eq.
  - rewrite filter_cons_False by done.
    destruct (last (filter _ itemList)); [done|]. by rewrite lookup_insert_ne.
Qed.

(** X23: after a fetch that returned items and a commit that went
    through, each document id holds the last fetched item mapped to it, and
    every id no fetched item maps to holds what it held before; so every
    fetched item's document id is present.  When the fetch failed, returned
    no item list, or the commit failed, the collection is unchanged. *)
Theorem scheduledTarkovDataFetch_last_item_wins {P}
    (response : Generated (TarkovDataResponse P)) commitSucceeds
    (itemsCollection : gmap string (TarkovItem.t P)) :
  let after := scheduledTarkovDataFetch response commitSucceeds itemsCollection in
  (∀ data itemList,
     response = generatorReturns data → items data = Some itemList →
     commitSucceeds = true →
     (∀ docId,
        after !! docId
        = match last (filter (λ item, docIdOf (TarkovItem.id item) = docId) itemList) with
          | Some item => Some item
          | None => itemsCollection !! docId
          end)
     ∧ (∀ item, item ∈ itemList → is_Some (after !! docIdOf (TarkovItem.id item))))
  ∧ ((∀ data, response = generatorReturns data → items data = None)
     ∨ commitSucceeds = false → after = itemsCollection).
Proof.
  intros after. subst after. unfold scheduledTarkovDataFetch, saveTarkovData. split.
  - intros data itemList -> Hitems ->. simpl. rewrite Hitems.
    split; [intros docId; apply lookup_batch|].
    intros item Hin. rewrite lookup_batch.
    destruct (last (filter _ itemList)) as [found|] eqn:Hlast; [done|].
    apply last_None in Hlast.
    assert (item ∈ filter (λ it, docIdOf (TarkovItem.id it) = docIdOf (TarkovItem.id item))
                     itemList) as Hfound by (by apply list_elem_of_filter).
    rewrite Hlast in Hfound. by apply elem_of_nil in Hfound.
  - intros [Hnone| ->].
    + destruct response as [msg|data]; simpl; [done|]. by rewrite (Hnone data eq_refl).
    + by destruct (retrieveTarkovdata response ≫= items).
Qed.

(** * The further properties on sample data *)

Definition sampleTeam (roster : list string) : TeamDocData :=
  mkTeamDoc (Some "owner") (Some "s3cretPassw0rd") (Some 2%Q) (Some roster)
    (Some 1000000000000).


(** A clock one millisecond past the commit time of [sampleEnv]. *)
Definition soonAfter : Env :=
  mkEnv 1000001 1000001000000 (generatorReturns "T2") (generatorReturns None).



Lemma sample_capacity_accepted : capacityAccepted (createTeam (createRequest "owner" (Some 2%Q))).
Proof. intros n [= <-]. split; [apply (whole_integer 2)|done]. Qed.

Lemma rosters_stay_well_formed_witness :
  ownerListed fullStore ∧ rostersNoDup fullStore.
Proof.
  destruct wellFormed_empty as (_ & _ & _ & Hown & Hnd).
  destruct (rosters_stay_well_formed sampleEnv (createTeam (createRequest "owner" (Some 2%Q)))
              emptyStore Hown Hnd) as [Hown1 Hnd1].
  exact (rosters_stay_well_formed sampleEnv
           (joinTeam (joinRequest "member" "T1" "s3cretPassw0rd")) ownerStore Hown1 Hnd1).
Defined.

Lemma team_fields_never_change_witness :
  owner (sampleTeam ["owner"; "member"]) = owner (sampleTeam ["owner"])
  ∧ password (sampleTeam ["owner"; "member"]) = password (sampleTeam ["owner"])
  ∧ maximumMembers (sampleTeam ["owner"; "member"]) = maximumMembers (sampleTeam ["owner"])
  ∧ createdAt (sampleTeam ["owner"; "member"]) = createdAt (sampleTeam ["owner"]).
Proof.
  apply (team_fields_never_change sampleEnv
           (joinTeam (joinRequest "member" "T1" "s3cretPassw0rd")) ownerStore "T1").
  - exact I.
  - vm_compute. reflexivity.
  - vm_compute. reflexivity.
Defined.



Lemma member_leave_keeps_team_witness :
  fst (_leaveTeamLogic sampleEnv (asUser "member" tt) fullStore) = inr (Left true)
  ∧ ∀ x, x ≠ "member" →
         systemCol (snd (_leaveTeamLogic sampleEnv (asUser "member" tt) fullStore)) !! x
         = systemCol fullStore !! x.
Proof.
  destruct (member_leave_keeps_team sampleEnv "member" fullStore "T1"
              (sampleTeam ["owner"; "member"])
              ltac:(vm_compute; reflexivity) ltac:(vm_compute; reflexivity)
              ltac:(discriminate)) as (Hres & _ & Hothers & _).
  split; [exact Hres|exact Hothers].
Defined.


Lemma second_team_is_refused_witness :
  ∃ msg, perform soonAfter (createTeam (createRequest "member" None)) fullStore
         = (inl (mkHttpsError failed_precondition msg None), fullStore).
Proof.
  exact (second_team_is_refused sampleEnv soonAfter
           (joinTeam (joinRequest "member" "T1" "s3cretPassw0rd"))
           (createTeam (createRequest "member" None)) ownerStore "member" (Joined true)
           eq_refl eq_refl I ltac:(vm_compute; reflexivity)).
Defined.

Lemma join_then_leave_restores_teams_witness :
  teamCol (snd (_leaveTeamLogic soonAfter (asUser "member" tt) fullStore))
  = teamCol ownerStore.
Proof.
  destruct (join_then_leave_restores_teams sampleEnv soonAfter "member" "T1"
              "s3cretPassw0rd" (sampleTeam ["owner"]) ["owner"] ownerStore
              ltac:(vm_compute; reflexivity) ltac:(reflexivity) ltac:(discriminate)
              ltac:(vm_compute; reflexivity) ltac:(reflexivity) ltac:(reflexivity)
              ltac:(intros Hin; apply list_elem_of_singleton in Hin; discriminate)
              ltac:(discriminate) ltac:(vm_compute; reflexivity))
    as (_ & _ & Hteams & _).
  exact Hteams.
Defined.

Lemma member_can_rejoin_at_once_witness :
  fst (_joinTeamLogic soonAfter (joinRequest "member" "T1" "s3cretPassw0rd")
         (snd (_leaveTeamLogic sampleEnv (asUser "member" tt) fullStore)))
  = inr (Joined true).
Proof.
  assert (withinCapacity fullStore) as Hcap.
  { apply (capacity_perform sampleEnv
             (joinTeam (joinRequest "member" "T1" "s3cretPassw0rd")) ownerStore);
      [| |exact I].
    - apply (capacity_perform sampleEnv (createTeam (createRequest "owner" (Some 2%Q)))
               emptyStore capacity_empty whole_empty sample_capacity_accepted).
    - apply (whole_perform sampleEnv (createTeam (createRequest "owner" (Some 2%Q)))
               emptyStore whole_empty sample_capacity_accepted). }
  destruct (member_can_rejoin_at_once sampleEnv soonAfter "member" "T1" "s3cretPassw0rd"
              (sampleTeam ["owner"; "member"]) fullStore Hcap
              ltac:(vm_compute; reflexivity) ltac:(reflexivity)
              ltac:(vm_compute; reflexivity)
              ltac:(discriminate) ltac:(reflexivity) ltac:(discriminate)
              ltac:(listed)) as (_ & Hjoined & _).
  exact Hjoined.
Defined.

Lemma departure_starts_cooldown_witness :
  ∃ msg,
    _createTeamLogic soonAfter (createRequest "member" None)
      (snd (perform sampleEnv (kickTeamMember (kickRequest "owner" "member")) fullStore))
    = (inl (mkHttpsError failed_precondition msg None),
       snd (perform sampleEnv (kickTeamMember (kickRequest "owner" "member")) fullStore)).
Proof.
  exact (departure_starts_cooldown sampleEnv soonAfter
           (kickTeamMember (kickRequest "owner" "member")) fullStore "member" (Kicked true)
           (CreateTeamData.mk None None) eq_refl ltac:(vm_compute; reflexivity)
           ltac:(vm_compute; reflexivity)).
Defined.

Lemma stored_ids_are_document_paths_witness : idsAreDocumentPaths fullStore.
Proof.
  apply (stored_ids_are_document_paths sampleEnv
           (joinTeam (joinRequest "member" "T1" "s3cretPassw0rd")) ownerStore); [|exact I].
  apply (stored_ids_are_document_paths sampleEnv
           (createTeam (createRequest "owner" (Some 2%Q))) emptyStore).
  - split.
    + intros tid td H. simpl in H. by rewrite lookup_empty in H.
    + intros uid d tid H. simpl in H. by rewrite lookup_empty in H.
  - by intros tid [= <-].
Defined.

Lemma failures_use_listed_codes_witness :
  resource_exhausted
  ∈ possibleCodes (joinTeam (joinRequest "third" "T1" "s3cretPassw0rd")).
Proof.
  exact (proj1 (failures_use_listed_codes sampleEnv
                  (joinTeam (joinRequest "third" "T1" "s3cretPassw0rd")) fullStore
                  (mkHttpsError resource_exhausted "Team is full" None)
                  ltac:(vm_compute; reflexivity))).
Defined.

Lemma createTeamHttp_runs_createTeam_witness :
  createTeamHttp (λ _, generatorReturns "owner") sampleEnv
    (mkHttpRequest "POST" (Some (String.append "Bearer " "tok"))
       (CreateTeamData.mk None (Some 2%Q))) emptyStore
  = (mkResponse createTeamHttpHeaders 200 (jsonResult (Created "T1" "s3cretPassw0rd")),
     ownerStore).
Proof.
  rewrite (createTeamHttp_runs_createTeam (λ _, generatorReturns "owner") sampleEnv
             (CreateTeamData.mk None (Some 2%Q)) "tok" "owner" emptyStore
             ltac:(discriminate) eq_refl).
  vm_compute. reflexivity.
Defined.

Lemma createTokenHttp_gates_token_logic_witness :
  status (createTokenHttp (R := unit) (λ _, generatorReturns "owner")
            (λ _ : CallableRequest unit, tokenThrowsOther) headerAbsent
            (mkHttpRequest "GET" None tt)) ∈ [405; 401; 500].
Proof.
  refine (proj2 (createTokenHttp_gates_token_logic (λ _, generatorReturns "owner")
                   (λ _ : CallableRequest unit, tokenThrowsOther)
                   (λ _ : CallableRequest unit, tokenReturns tt) headerAbsent
                   (mkHttpRequest "GET" None tt) _ _)).
  - discriminate.
  - left. discriminate.
Defined.

Lemma createTokenHttp_error_status_witness :
  status (createTokenHttp (R := unit) (λ _, generatorReturns "owner")
            (λ _ : CallableRequest unit, tokenThrowsHttps "ok" "fine") headerAbsent
            (mkHttpRequest "POST" (Some "Bearer tok") tt)) = 200.
Proof.
  destruct (createTokenHttp_error_status (R := unit) (λ _, generatorReturns "owner")
              (λ _ : CallableRequest unit, tokenThrowsHttps "ok" "fine") headerAbsent
              tt "tok" "owner" "ok" "fine" ltac:(discriminate) eq_refl eq_refl)
    as (_ & _ & Hok & _).
  exact (Hok eq_refl).
Defined.

Lemma deleteUserAccount_error_codes_witness :
  ∃ c, deleteUserAccount (R := unit) (λ _ _, serviceThrowsStatus 404 "no such user")
         (mkRequest (Some "owner")
            (Some (DeleteAccountData.mk (Some "DELETE MY ACCOUNT"))))
       = inl (mkHttpsError c "no such user" None)
       ∧ c = internal.
Proof.
  destruct (deleteUserAccount_error_codes (R := unit)
              (λ _ _, serviceThrowsStatus 404 "no such user")
              (DeleteAccountData.mk (Some "DELETE MY ACCOUNT")) "owner" 404 "no such user"
              ltac:(discriminate) eq_refl eq_refl) as (c & Hrun & _ & _ & _ & Hother).
  exists c. split; [exact Hrun|]. apply Hother. intros Hin.
  repeat (apply elem_of_cons in Hin as [Hin|Hin]; [discriminate|]).
  by apply elem_of_nil in Hin.
Defined.

Lemma requireRecentAuth_rejections_witness :
  ∃ msg,
    requireRecentAuth (λ msg, mkApiError 401 msg None)
      (λ _ _, verified (mkDecodedIdToken "owner" 1000 None None)) 1300001
      (Some "Bearer tok")
    = respondJson 403 msg (Some "RECENT_AUTH_REQUIRED").
Proof.
  destruct (requireRecentAuth_rejections (λ msg, mkApiError 401 msg None)
              (λ _ _, verified (mkDecodedIdToken "owner" 1000 None None)) 1300001
              "Bearer tok" eq_refl) as [Hstale _].
  exact (Hstale (mkDecodedIdToken "owner" 1000 None None) eq_refl ltac:(vm_compute; reflexivity)).
Defined.
